(** * zo: a shallow embedding of [zo.py] and its checked properties

    [zo.py] manages a repository of papers: it scans LaTeX projects for
    citation keys, splits a parent BibTeX file into the entries a project
    needs, maps PDF file names to keys and prints enumerated reports.

    Conventions of the embedding.
    - A Python [str] is a [string] of bytes (the program is Python 2: it
      calls [dict.iteritems]); [str.strip] removes the six ASCII white
      space bytes, and files are split into lines at the byte 10 only.
    - A Python [set] of strings is a [gset string], a [dict] with string
      keys a [gmap string _].
    - A file is given by its content.  A file object being read is the
      list of the lines still to be read; [readline] pops one and returns
      the empty string at the end of the file.
    - A raised exception is a [Raise] result; [warnings.warn] appends to a
      log that is threaded through the scanner.
    - A [while] loop is a function that counts its iterations down from a
      bound taken from the length of the input; it is shown that the bound
      is never reached.
    - The directory walk [os.walk] is the list of the [(root, filenames)]
      pairs it yields, in the order it yields them; where the program reads
      the files, each file name comes with the content of the file.
    - [bibtexparser] is not part of the program: the functions that call it
      take the loader as a parameter. *)

From Stdlib Require Import Ascii DecimalString.
From stdpp Require Import base gmap sets list strings sorting.

(** ** Results of fallible code *)

Inductive exn : Type :=
  | IndexError
  | KeyError
  | ParseError.

(** [Timeout] is not a Python outcome: it is a loop model running out of
    the iterations it was given.  The loops of the program are bounded by
    the length of their input, and the models are shown not to reach it. *)
Inductive result (A : Type) : Type :=
  | Ok (a : A)
  | Raise (e : exn)
  | Timeout.
Arguments Ok {A} a.
Arguments Raise {A} e.
Arguments Timeout {A}.

Global Instance result_ret : MRet result := λ A a, Ok a.
Global Instance result_bind : MBind result := λ A B k r,
  match r with
  | Ok a => k a
  | Raise e => Raise e
  | Timeout => Timeout
  end.

(** ** Python string primitives *)

Definition nl : ascii := ascii_of_nat 10.

(** The bytes [str.strip()] removes: space, [\t], [\n], [\v], [\f], [\r]. *)
Definition is_space (c : ascii) : bool :=
  let n := nat_of_ascii c in
  (n =? 32) || ((9 <=? n) && (n <=? 13)).

Definition ascii_eqb (a b : ascii) : bool := bool_decide (a = b).

Fixpoint lstrip (s : string) : string :=
  match s with
  | "" => ""
  | String c s' => if is_space c then lstrip s' else s
  end.

Fixpoint rstrip (s : string) : string :=
  match s with
  | "" => ""
  | String c s' =>
      match rstrip s' with
      | "" => if is_space c then "" else String c ""
      | r => String c r
      end
  end.

(** [s.strip()] *)
Definition strip (s : string) : string := rstrip (lstrip s).

(** [s.split(sep)] for a one-byte separator: never the empty list. *)
Fixpoint split (sep : ascii) (s : string) : list string :=
  match s with
  | "" => [""]
  | String c s' =>
      if ascii_eqb c sep then "" :: split sep s'
      else match split sep s' with
           | [] => [String c ""]
           | p :: ps => String c p :: ps
           end
  end.

(** [l[i]] *)
Definition index {A : Type} (l : list A) (i : nat) : result A :=
  match l !! i with
  | Some x => Ok x
  | None => Raise IndexError
  end.

(** [s[0]] of a string: its first byte, if any. *)
Definition first_char (s : string) : option ascii :=
  match s with
  | "" => None
  | String c _ => Some c
  end.

(** [s.startswith(p)] *)
Fixpoint startswith (s p : string) : bool :=
  match p, s with
  | "", _ => true
  | String a p', String b s' => ascii_eqb a b && startswith s' p'
  | String _ _, "" => false
  end.

(** [p in s] for strings: some suffix of [s] starts with [p]. *)
Fixpoint contains (s p : string) : bool :=
  startswith s p ||
  match s with
  | "" => false
  | String _ s' => contains s' p
  end.

(** [s.endswith(p)] *)
Fixpoint endswith (s p : string) : bool :=
  bool_decide (s = p) ||
  match s with
  | "" => false
  | String _ s' => endswith s' p
  end.

(** ["".join(l)] *)
Fixpoint join (l : list string) : string :=
  match l with
  | [] => ""
  | s :: l' => s +:+ join l'
  end.

(** The lines of a file, as [readline] and iteration over the file return
    them: each line keeps its final byte 10; the last line has none when the
    file does not end with one. *)
Fixpoint readlines (s : string) : list string :=
  match s with
  | "" => []
  | String c s' =>
      if ascii_eqb c nl then String c "" :: readlines s'
      else match readlines s' with
           | [] => [String c ""]
           | l :: ls => String c l :: ls
           end
  end.

(** ** Files being read *)

(** An open file: the lines not yet read. *)
Definition file : Type := list string.

(** [open(path, 'r')] on a file with the given content. *)
Definition open (content : string) : file := readlines content.

(** [f.readline()]: the next line, or [""] at the end of the file. *)
Definition readline (f : file) : string * file :=
  match f with
  | [] => ("", [])
  | line :: f' => (line, f')
  end.

(** ** The bibliography splitter, [bib_strip] *)

(** [line.split('{')[1].split(',')[0].strip()] *)
Definition entry_key (line : string) : result string :=
  p ← index (split "{"%char line) 1;
  q ← index (split ","%char p) 0;
  mret (strip q).

(** [line.strip() != "" and line.strip()[0] == '@'] *)
Definition starts_entry (line : string) : bool :=
  bool_decide (strip line ≠ "") &&
  bool_decide (first_char (strip line) = Some "@"%char).

(** The condition of the [if] in the outer loop; [and] evaluates its right
    operand only when the left one holds, so [IndexError] is raised only
    by a line that starts an entry and has no brace. *)
Definition is_required_entry (line : string) (entries : gset string) :
    result bool :=
  if starts_entry line then
    k ← entry_key line; mret (bool_decide (k ∈ entries))
  else mret false.

(** The condition of the inner loop:
    [line.strip() != "" and line.strip()[0] != '@']. *)
Definition in_body (line : string) : bool :=
  bool_decide (strip line ≠ "") &&
  bool_decide (first_char (strip line) ≠ Some "@"%char).

(** [line.strip()[0] != '#'], evaluated on lines of a body only. *)
Definition not_comment (line : string) : bool :=
  bool_decide (first_char (strip line) ≠ Some "#"%char).

(** The inner [while]: the lines of the block after its first one.  Both
    loops read one line per iteration; the models count iterations down
    from [n]. *)
Fixpoint read_body (n : nat) (line : string) (f : file) (child_bib : string) :
    result (string * file * string) :=
  match n with
  | 0 => Timeout
  | S n =>
      if in_body line then
        let child_bib :=
          if not_comment line then child_bib +:+ line else child_bib in
        let '(line, f) := readline f in
        read_body n line f child_bib
      else Ok (line, f, child_bib)
  end.

(** State of the outer loop: the set [entries] (mutated in place by the
    program), [added_entries] and [child_bib]. *)
Record strip_state : Type := StripState {
  s_entries : gset string;
  s_added_entries : gset string;
  s_child_bib : string;
}.

(** The outer [while line != ""]. *)
Fixpoint bib_strip_loop (n : nat) (line : string) (f : file)
    (st : strip_state) : result strip_state :=
  match n with
  | 0 => Timeout
  | S n =>
      if bool_decide (line = "") then Ok st
      else
        b ← is_required_entry line (s_entries st);
        if b : bool then
          entry ← entry_key line;
          let entries := s_entries st ∖ {[entry]} in
          let added_entries := s_added_entries st ∪ {[entry]} in
          let child_bib := s_child_bib st +:+ line in
          let '(line, f) := readline f in
          '(line, f, child_bib) ← read_body n line f child_bib;
          let child_bib := child_bib +:+ String nl "" in
          bib_strip_loop n line f (StripState entries added_entries child_bib)
        else
          let '(line, f) := readline f in
          bib_strip_loop n line f st
  end.

(** The loop started on an open file [f] with the first [readline]. *)
Definition bib_strip_from (f : file) (st : strip_state) : result strip_state :=
  let '(line, f') := readline f in
  bib_strip_loop (length f + 2) line f' st.

(** [bib_strip(parent_bib, entries)] on the content of [parent_bib]:
    returns [(child_bib, added_entries, missing_entries)], where
    [missing_entries] is the mutated input set. *)
Definition bib_strip (parent_bib : string) (entries : gset string) :
    result (string * gset string * gset string) :=
  st ← bib_strip_from (open parent_bib) (StripState entries ∅ "");
  mret (s_child_bib st, s_added_entries st, s_entries st).

(** ** Lines of a block, as functions on the list of pending lines *)

Fixpoint take_while {A : Type} (p : A → bool) (l : list A) : list A :=
  match l with
  | [] => []
  | x :: l' => if p x then x :: take_while p l' else []
  end.

Fixpoint drop_while {A : Type} (p : A → bool) (l : list A) : list A :=
  match l with
  | [] => []
  | x :: l' => if p x then drop_while p l' else l
  end.

(** The text the inner loop appends for the body lines [ls]. *)
Definition body_text (ls : list string) : string :=
  join (filter (λ l, not_comment l = true) (take_while in_body ls)).

(** The inner loop started with the first of the pending lines [ls]. *)
Definition read_body_on (n : nat) (ls : list string) (child_bib : string) :
    result (string * file * string) :=
  let '(line, f) := readline ls in read_body n line f child_bib.

(** The outer loop started with the first of the pending lines [ls]. *)
Definition bib_strip_on (n : nat) (ls : list string) (st : strip_state) :
    result strip_state :=
  let '(line, f) := readline ls in bib_strip_loop n line f st.

(** One block taken: the state after the header [line] with key [entry]
    and the lines [rest] that follow it. *)
Definition take_block (line entry : string) (rest : list string)
    (st : strip_state) : strip_state :=
  StripState (s_entries st ∖ {[entry]}) (s_added_entries st ∪ {[entry]})
    (s_child_bib st +:+ line +:+ body_text rest +:+ String nl "").

(** Follows the words of the specification, not the program: the block of
    an entry runs to the next line that begins, after trimming, with [@],
    or to the end of the file. *)
Definition before_next_entry (line : string) : bool :=
  bool_decide (first_char (strip line) ≠ Some "@"%char).

(** A line followed by the byte 10. *)
Definition ln (s : string) : string := s +:+ String nl "".

(** ** Blocks of a key in a bibliography text *)

(** [line] starts an entry whose parsed key is [k]. *)
Definition is_entry_for (k : string) (line : string) : bool :=
  starts_entry line &&
  match entry_key line with
  | Ok k' => bool_decide (k' = k)
  | _ => false
  end.

(** The number of blocks of the key [k] in a bibliography text: its lines
    that start an entry with key [k]. *)
Definition count_blocks (k : string) (text : string) : nat :=
  length (filter (λ l, is_entry_for k l = true) (readlines text)).

(** No byte 10 in the string. *)
Fixpoint no_nl (s : string) : bool :=
  match s with
  | "" => true
  | String c s' => negb (ascii_eqb c nl) && no_nl s'
  end.

(** A line that ends with its byte 10, and one that has none (the last
    line of a file that does not end with one). *)
Definition complete_line (l : string) : Prop :=
  ∃ b, l = b +:+ String nl "" ∧ no_nl b = true.
Definition partial_line (l : string) : Prop :=
  l ≠ "" ∧ no_nl l = true.

(** The lines of some file: complete, but for the last one. *)
Inductive file_lines : list string → Prop :=
  | file_lines_nil : file_lines []
  | file_lines_last (l : string) : partial_line l → file_lines [l]
  | file_lines_cons (l : string) (ls : list string) :
      complete_line l → file_lines ls → file_lines (l :: ls).

(** A text that is empty or ends with the byte 10. *)
Definition closed_text (s : string) : Prop :=
  s = "" ∨ ∃ b, s = b +:+ String nl "".

(** Some pending line starts an entry with key [k]. *)
Definition has_entry (k : string) (ls : list string) : bool :=
  existsb (is_entry_for k) ls.

(** ** Reports, [_printer] *)

(** [s * n] for a string [s]. *)
Fixpoint str_mul (s : string) (n : nat) : string :=
  match n with
  | 0 => ""
  | S n => s +:+ str_mul s n
  end.

(** [str(n)] for a natural number: its decimal digits. *)
Definition str_of_nat (n : nat) : string :=
  NilZero.string_of_uint (Nat.to_uint n).

(** [sorted(things)] for strings, which Python compares byte by byte. *)
Definition sorted (things : list string) : list string :=
  merge_sort String.le things.

(** ["{0}. {1}\n".format(i + 1, thing)] *)
Definition printer_line (i : nat) (thing : string) : string :=
  str_of_nat (i + 1) +:+ ". " +:+ thing +:+ String nl "".

(** The [for i, thing in enumerate(...)] loop, from the index [i]. *)
Fixpoint printer_loop (i : nat) (items : list string) (out : string) : string :=
  match items with
  | [] => out
  | thing :: items => printer_loop (S i) items (out +:+ printer_line i thing)
  end.

(** [_printer(things, msg)]; [things] is the sequence Python iterates
    ([elements s] for a set [s]). *)
Definition _printer (things : list string) (msg : string) : string :=
  let out := "" in
  if 0 <? length things then
    let out := out +:+ msg +:+ String nl "" in
    let out := out +:+ str_mul "=" (String.length msg) +:+ String nl "" in
    printer_loop 0 (sorted things) out
  else out.

(** ** File names and keys *)

(** The regular expression [.*\]] matched greedily at the start of [r]:
    [.] takes any byte but the byte 10, as many as it can, and gives bytes
    back until a [']'] follows.  Returns what [.*] matched. *)
Fixpoint dot_star_bracket (r : string) : option string :=
  match r with
  | "" => None
  | String c r' =>
      match (if ascii_eqb c nl then None else dot_star_bracket r') with
      | Some g => Some (String c g)
      | None => if ascii_eqb c "]" then Some "" else None
      end
  end.

(** The regular expression [\[(.+)\]] matched at the start of [s]: the
    group, if it matches. *)
Definition match_bracket (s : string) : option string :=
  match s with
  | String "["%char (String c r) =>
      if ascii_eqb c nl then None else String c <$> dot_star_bracket r
  | _ => None
  end.

(** [re.search("\[(.+)\]", s)]: the group of the leftmost match. *)
Fixpoint search_bracket (s : string) : option string :=
  match match_bracket s with
  | Some g => Some g
  | None =>
      match s with
      | "" => None
      | String _ s' => search_bracket s'
      end
  end.

Definition filename_to_bibnick (filename : string) : string :=
  match search_bracket filename with
  | Some g => g
  | None => filename
  end.

(** [filename.split(".")[0]] over the [*.pdf] names of the walk, as
    [find_pdfs] collects them. *)
Definition find_pdfs (walk : list (string * list string)) :
    result (list string) :=
  mapM (λ filename, index (split "."%char filename) 0)
       (filter (λ filename, endswith filename ".pdf" = true)
               (mjoin (snd <$> walk))).

(** ** Finding the PDF of a key *)

(** [os.path.join(root, filename)] for a file name of the walk, which has
    no slash. *)
Definition path_join (root filename : string) : string :=
  if bool_decide (root = "") || endswith root "/" then root +:+ filename
  else root +:+ "/" +:+ filename.

(** The test of [find_pdf_from_bibnick]:
    [bibnick in filename and filename.endswith(".pdf")]. *)
Definition pdf_matches (bibnick filename : string) : bool :=
  contains filename bibnick && endswith filename ".pdf".

Section FindPdf.
(** [os.path.abspath], which depends on the working directory. *)
Variable abspath : string → string.

(** The inner [for filename in filenames]. *)
Fixpoint find_in_filenames (bibnick root : string) (filenames : list string) :
    option string :=
  match filenames with
  | [] => None
  | filename :: filenames =>
      if pdf_matches bibnick filename
      then Some (abspath (path_join root filename))
      else find_in_filenames bibnick root filenames
  end.

(** [find_pdf_from_bibnick(bibnick, directory)] over the walk of the
    directory; [None] is Python's implicit return value. *)
Fixpoint find_pdf_from_bibnick (bibnick : string)
    (walk : list (string * list string)) : option string :=
  match walk with
  | [] => None
  | (root, filenames) :: walk =>
      match find_in_filenames bibnick root filenames with
      | Some p => Some p
      | None => find_pdf_from_bibnick bibnick walk
      end
  end.
End FindPdf.

(** The files of a walk in the order the loops visit them. *)
Definition walk_files (walk : list (string * list string)) :
    list (string * string) :=
  '(root, filenames) ← walk; (λ filename, (root, filename)) <$> filenames.

(** ** The LaTeX citation scanner, [latex_cites] *)

(** The command names of the pattern. *)
Definition cites : list string := ["cite"; "fullcite"].

(** [s] without the prefix [p], when it starts with [p]. *)
Fixpoint strip_prefix (p s : string) : option string :=
  match p, s with
  | "", _ => Some s
  | String a p', String b s' =>
      if ascii_eqb a b then strip_prefix p' s' else None
  | String _ _, "" => None
  end.

(** The end [(.*?)\}] of the pattern [citere] at the start of [r]: the lazy
    group takes as few bytes as it can, none of them the byte 10, up to the
    first closing brace.  Returns the group and the text after the match. *)
Fixpoint lazy_brace (r : string) : option (string * string) :=
  match r with
  | "" => None
  | String c r' =>
      if ascii_eqb c "}" then Some ("", r')
      else if ascii_eqb c nl then None
      else '(g, rest) ← lazy_brace r'; Some (String c g, rest)
  end.

(** One alternative of [citere], [\\cmd\{(.*?)\}], at the start of [s]:
    the two groups and the text after the match. *)
Definition match_cmd (cmd s : string) : option (string * string * string) :=
  r ← strip_prefix ("\" +:+ cmd) s;
  r' ← strip_prefix "{" r;
  '(g, rest) ← lazy_brace r';
  Some ("\" +:+ cmd, g, rest).

(** The alternatives of the first group are tried in order. *)
Fixpoint match_alternatives (cmds : list string) (s : string) :
    option (string * string * string) :=
  match cmds with
  | [] => None
  | cmd :: cmds =>
      match match_cmd cmd s with
      | Some m => Some m
      | None => match_alternatives cmds s
      end
  end.

(** The pattern [citere], [(\\cite|\\fullcite)\{(.*?)\}], at the start of
    [s]. *)
Definition match_citere (s : string) : option (string * string * string) :=
  match_alternatives cites s.

(** The scan of [re.findall]: a match is recorded and the scan resumes
    after it; without a match the scan moves on by one byte.  Every step
    shortens the text, and [n] bounds the number of steps. *)
Fixpoint findall_loop (n : nat) (s : string) : list (string * string) :=
  match n with
  | 0 => []
  | S n =>
      match match_citere s with
      | Some (g1, g2, rest) => (g1, g2) :: findall_loop n rest
      | None =>
          match s with
          | "" => []
          | String _ s' => findall_loop n s'
          end
      end
  end.

(** [re.findall(citere, s)]: the pairs of groups of the matches. *)
Definition findall_citere (s : string) : list (string * string) :=
  findall_loop (S (String.length s)) s.

Definition empty_citation_warning : string := "Empty citation encountered.".

(** The scanner's state: the set [cites] being built and the warnings
    issued so far. *)
Definition scan_state : Type := gset string * list string.

(** The keys of one argument list:
    [set([x.strip() for x in x[1].split(',')])]. *)
Definition arg_keys (arg : string) : gset string :=
  list_to_set (strip <$> split ","%char arg).

(** The body of [for x in re.findall(citere, lines)]. *)
Definition scan_match (st : scan_state) (x : string * string) : scan_state :=
  if bool_decide (x.2 ≠ "") then (st.1 ∪ arg_keys x.2, st.2)
  else (st.1, st.2 ++ [empty_citation_warning]).

(** ["".join(line.strip() for line in f)] *)
Definition dewrap (content : string) : string :=
  join (strip <$> readlines content).

(** The body of [for tex_file in tex_files], on the content of the file. *)
Definition scan_file (st : scan_state) (content : string) : scan_state :=
  foldl scan_match st (findall_citere (dewrap content)).

(** [fnmatch] with ['*.tex'] and the test [filename[0] != '.']. *)
Definition is_tex_file (filename : string) : bool :=
  endswith filename ".tex" &&
  bool_decide (first_char filename ≠ Some "."%char).

(** A project directory: what [os.walk] yields, each file name with the
    content of the file. *)
Definition project_walk : Type := list (string * list (string * string)).

(** The [tex_files] of a project with their contents, in the order the
    second loop takes them. *)
Definition tex_files (project : project_walk) : list (string * string) :=
  '(root, files) ← project;
  '(filename, content) ← filter (λ fc, is_tex_file fc.1 = true) files;
  [(path_join root filename, content)].

(** [latex_cites(project)]: the returned set, and the warnings issued. *)
Definition latex_cites (project : project_walk) : scan_state :=
  foldl (λ st pc, scan_file st pc.2) (∅, []) (tex_files project).

(** Every citation command the scanner finds in the project. *)
Definition all_matches (project : project_walk) : list (string * string) :=
  pc ← tex_files project; findall_citere (dewrap pc.2).

(** ** The bibliography reader and the lookups *)

(** What the program reads of the object [bibtexparser.load] returns: the
    list [entries] and the dictionary [entries_dict]; an entry is a
    dictionary from field names to values. *)
Record BibDatabase : Type := {
  db_entries : list (gmap string string);
  db_entries_dict : gmap string (gmap string string);
}.

(** [s.replace(c, "")] for a one-byte [c]. *)
Fixpoint remove_char (c : ascii) (s : string) : string :=
  match s with
  | "" => ""
  | String a s' =>
      if ascii_eqb a c then remove_char c s' else String a (remove_char c s')
  end.

Definition sanitize (s : string) : string :=
  let s := remove_char nl s in
  let s := remove_char (ascii_of_nat 9) s in
  let s := remove_char (ascii_of_nat 13) s in
  s.

Definition added_msg : string :=
  String nl "The following refs were added to the local refs.bib:".
Definition missing_msg : string :=
  String nl "Refs not in parent and NOT added to the local refs.bib:".

(** One run of [make]: its local variables when it ends, the content of
    the child file after the append, and what it prints. *)
Record make_run : Type := MakeRun {
  mk_cites : gset string;
  mk_local_refs : gset string;
  mk_required_refs : gset string;
  mk_append_string : string;
  mk_added_refs : gset string;
  mk_missing_refs : gset string;
  mk_child : string;
  mk_out : string;
  mk_warnings : list string;
}.

Section Bib.
(** [bibtexparser.load] on a file with the given content: the parsed
    database, [None], or an exception.  The library is not part of the
    program. *)
Variable bibtexparser_load : string → result (option BibDatabase).

(** [entry['ID']] *)
Definition entry_id (entry : gmap string string) : result string :=
  match entry !! "ID" with
  | Some k => Ok k
  | None => Raise KeyError
  end.

Definition bib_nicknames (bib : string) : result (gset string) :=
  bib_database ← bibtexparser_load bib;
  match bib_database with
  | None => mret ∅
  | Some db =>
      ids ← mapM entry_id (db_entries db);
      mret (list_to_set ids)
  end.

(** [bib_lookup(bib, bibnick, what)]; [None] is Python's [None]. *)
Definition bib_lookup (bib bibnick what : string) : result (option string) :=
  bib_database ← bibtexparser_load bib;
  match bib_database with
  | Some db =>
      match db_entries_dict db !! bibnick with
      | Some entry =>
          match entry !! what with
          | Some v => mret (Some (sanitize v))
          | None => mret None
          end
      | None => mret None
      end
  | None => mret None
  end.

(** [bib_lookup_many(bib, bibnick, what)] for a list [what] of field
    names: the dictionary [result]. *)
Definition bib_lookup_many (bib bibnick : string) (what : list string) :
    result (gmap string string) :=
  let result : gmap string string := ∅ in
  bib_database ← bibtexparser_load bib;
  let result :=
    match bib_database with
    | Some db =>
        match db_entries_dict db !! bibnick with
        | Some entry =>
            foldl (λ result w,
                     match entry !! w with
                     | Some v => <[w := sanitize v]> result
                     | None => result
                     end) result what
        | None => result
        end
    | None => result
    end in
  let result :=
    foldl (λ result w,
             match result !! w with
             | None => <[w := ""]> result
             | Some _ => result
             end) result what in
  mret result.

(** [make(project, parent, child)] on the walk of the project and the
    contents of the two bibliography files. *)
Definition make (project : project_walk) (parent child : string) :
    result make_run :=
  let '(cites, warnings) := latex_cites project in
  local_refs ← bib_nicknames child;
  let required_refs := cites ∖ local_refs in
  '(append_string, added_refs, missing_refs) ← bib_strip parent required_refs;
  let child := child +:+ append_string in
  let out := _printer (elements added_refs) added_msg in
  let out := out +:+ _printer (elements missing_refs) missing_msg in
  mret (MakeRun cites local_refs required_refs append_string added_refs
          missing_refs child out warnings).
End Bib.

(** The field of an entry as the lookups see it. *)
Definition field_of (bib_database : option BibDatabase)
    (bibnick what : string) : option string :=
  db ← bib_database; entry ← db_entries_dict db !! bibnick; entry !! what.

(** Modelled from the spec: the bibliography reader ([bibtexparser], an
    external library).  The specification's data model takes a bibliography
    as the blocks that start at a line whose first non-blank byte is [@],
    with the key between the first brace and the following comma, and asks
    that the parsed entries have the keys of these blocks; a file that
    cannot be parsed is a failure.  Only the key of an entry is kept. *)
Definition spec_load (content : string) : result (option BibDatabase) :=
  match mapM entry_key (filter (λ l, starts_entry l = true) (readlines content)) with
  | Ok keys =>
      Ok (Some {| db_entries := (λ k, {["ID" := k]}) <$> keys;
                  db_entries_dict :=
                    list_to_map ((λ k, (k, {["ID" := k]})) <$> keys) |})
  | _ => Raise ParseError
  end.

(** A reader for the examples: every file holds the one entry [k] with a
    title that spans two lines. *)
Definition example_entry : gmap string string :=
  {[ "ID" := "k"; "title" := String "T" (String nl "itle") ]}.
Definition example_load (content : string) : result (option BibDatabase) :=
  Ok (Some {| db_entries := [example_entry];
              db_entries_dict := {[ "k" := example_entry ]} |}).

(** A project that cites [a] and [x], a parent that has an entry for [a]
    only, and the first run of [make] on them with an empty child, read
    with [spec_load]. *)
Definition example_project : project_walk :=
  [("paper", [("main.tex", ln "See \cite{a} and" +:+ ln "\fullcite{x}.")])].
Definition example_parent : string :=
  ln "@book{a," +:+ ln "  year = 1" +:+ ln "}".
Definition example_run1 : make_run :=
  MakeRun {["a"; "x"]} ∅ {["a"; "x"]}
    (ln "@book{a," +:+ ln "  year = 1" +:+ ln "}" +:+ ln "")
    {["a"]} {["x"]}
    (ln "@book{a," +:+ ln "  year = 1" +:+ ln "}" +:+ ln "")
    (_printer ["a"] added_msg +:+ _printer ["x"] missing_msg)
    [].

(** No backslash in the string: no citation command starts in it. *)
Fixpoint no_backslash (s : string) : bool :=
  match s with
  | "" => true
  | String c s' => negb (ascii_eqb c "\") && no_backslash s'
  end.

(** ** More on the splitter *)

(** [line] starts an entry and has no brace after which to read a key. *)
Definition braceless_entry (line : string) : bool :=
  starts_entry line &&
  match entry_key line with
  | Ok _ => false
  | _ => true
  end.

(** A line of the text the splitter returns, against the lines [parent] of
    the file it read: a blank line, or a line of the file, with a final
    byte 10 when the file had none there, that does not begin with [#]. *)
Definition kept_line (parent : list string) (l : string) : Prop :=
  l = String nl "" ∨
  ∃ l0, l0 ∈ parent ∧ (l = l0 ∨ l = l0 +:+ String nl "") ∧
        first_char (strip l0) ≠ Some "#"%char.

(** The byte [c] does not occur in the string. *)
Fixpoint no_char (c : ascii) (s : string) : bool :=
  match s with
  | "" => true
  | String a s' => negb (ascii_eqb a c) && no_char c s'
  end.

(** ** The other lookups, notes and the viewer *)

Section BibMore.
Variable bibtexparser_load : string → result (option BibDatabase).

(** [bib_lookup_all(bib, what)]: the loop over the keys of [entries_dict],
    in whatever order the dictionary gives them. *)
Definition bib_lookup_all (bib what : string) : result (gmap string string) :=
  let result : gmap string string := ∅ in
  bib_database ← bibtexparser_load bib;
  let result :=
    match bib_database with
    | Some db =>
        foldl (λ result be,
                 match be.2 !! what with
                 | Some v => <[be.1 := sanitize v]> result
                 | None => result
                 end) result (map_to_list (db_entries_dict db))
    | None => result
    end in
  mret result.

Definition bib_nicks_titles (bib : string) : result (gmap string string) :=
  bib_lookup_all bib "title".
End BibMore.

(** The name of a file up to its first dot, as [find_pdfs] cuts it. *)
Definition stem (filename : string) : string :=
  default "" (head (split "."%char filename)).

(** The double quote. *)
Definition dq : string := String (ascii_of_nat 34) "".

(** [str(x)] for the value [find_pdf_from_bibnick] returns. *)
Definition str_of_path (pdf : option string) : string :=
  match pdf with
  | Some p => p
  | None => "None"
  end.

(** [pdfview(nickname)] over the walk of the repository: the command it
    hands to [system]. *)
Definition pdfview (abspath : string → string) (nickname : string)
    (walk : list (string * list string)) : string :=
  let pdf := find_pdf_from_bibnick abspath nickname walk in
  "xdg-open " +:+ dq +:+ str_of_path pdf +:+ dq +:+ " >/dev/null &".

(** [os.path.join(a, b)] *)
Definition os_path_join (a b : string) : string :=
  if startswith b "/" then b
  else if bool_decide (a = "") || endswith a "/" then a +:+ b
  else a +:+ "/" +:+ b.

Definition NOTE_FORMAT : string := "md".

(** [get_notes_from_bibnick(nickname, refrepo)] *)
Definition get_notes_from_bibnick (nickname refrepo : string) : string :=
  os_path_join refrepo (nickname +:+ "_noted." +:+ NOTE_FORMAT).

(** A format string as [str.format] reads it: literal text and named
    replacement fields. *)
Inductive segment : Type :=
  | Text (s : string)
  | Field (name : string).

(** [NOTE_FILE_TEMPLATE]; the text after the last field is given in four
    pieces. *)
Definition NOTE_FILE_TEMPLATE : list segment :=
  [Text "# Notes about "; Field "bibnick";
   Text (String nl "title: "); Field "title";
   Text (String nl "author: "); Field "author";
   Text (String nl "year: "); Field "year";
   Text (String nl (String nl "## Summary"));
   Text (String nl (String nl (String nl "## Comments")));
   Text (String nl (String nl (String nl "## Related Work")));
   Text (String nl (String nl ""))].

(** [template.format] with the items of [data] as keyword arguments: a
    field whose name is not a key of [data] raises [KeyError]. *)
Fixpoint format (template : list segment) (data : gmap string string) :
    result string :=
  match template with
  | [] => mret ""
  | Text s :: template => rest ← format template data; mret (s +:+ rest)
  | Field name :: template =>
      match data !! name with
      | Some v => rest ← format template data; mret (v +:+ rest)
      | None => Raise KeyError
      end
  end.

Section Notes.
Variable bibtexparser_load : string → result (option BibDatabase).

(** [init_notes_file(nickname, notesfile, refrepo)] on the content [bib]
    of the bibliography of the repository: the text written to the notes
    file. *)
Definition init_notes_file (bib nickname : string) : result string :=
  data ← bib_lookup_many bibtexparser_load bib nickname
            ["title"; "year"; "author"];
  let data := <["bibnick" := nickname]> data in
  format NOTE_FILE_TEMPLATE data.

(** [os.getenv(name)] in a condition: set and not empty. *)
Definition getenv_true (env : gmap string string) (name : string) :
    option string :=
  match env !! name with
  | Some v => if bool_decide (v = "") then None else Some v
  | None => None
  end.

(** The command [edit_notes] hands to [system]. *)
Definition editor_command (env : gmap string string) (notes : string) :
    string :=
  match getenv_true env "GUI_EDITOR" with
  | Some editor => editor +:+ " " +:+ dq +:+ notes +:+ dq +:+ " >/dev/null &"
  | None =>
      match getenv_true env "EDITOR" with
      | Some editor => editor +:+ " " +:+ dq +:+ notes +:+ dq
      | None => "xdg-open " +:+ dq +:+ notes +:+ dq
      end
  end.

(** [edit_notes(nickname)] with the repository [refrepo], the environment,
    the files [fs] of the repository by path and the content [bib] of its
    bibliography: the files afterwards and the command run. *)
Definition edit_notes (env : gmap string string) (refrepo : string)
    (fs : gmap string string) (bib nickname : string) :
    result (gmap string string * string) :=
  let notes := get_notes_from_bibnick nickname refrepo in
  fs ← match fs !! notes with
       | None => s ← init_notes_file bib nickname; mret (<[notes := s]> fs)
       | Some _ => mret fs
       end;
  mret (fs, editor_command env notes).
End Notes.

(** ** [status] and [search_for] *)

(** The line of the first section of [status] and of [search] for a key
    with a title: ["[{}] {}".format(nick, bnt[nick])]. *)
Definition nick_title_line (nick title : string) : string :=
  "[" +:+ nick +:+ "] " +:+ title.

(** One run of [status]: its local variables and what it prints. *)
Record status_run : Type := StatusRun {
  st_files : gset string;
  st_refs : gset string;
  st_bnt : gmap string string;
  st_x : list string;
  st_out : string;
}.

(** What a call of [search_for] comes to: [re.error], raised by
    [re.compile] for a search string that is not a regular expression, or
    the outcome of the rest of the function. *)
Inductive search_outcome : Type :=
  | ReError
  | Searched (r : result (gset string)).

Section Status.
Variable bibtexparser_load : string → result (option BibDatabase).

(** [status()] on the walk of the repository and the content [bib] of its
    bibliography, which is read twice. *)
Definition status (walk : list (string * list string)) (bib : string) :
    result status_run :=
  names ← find_pdfs walk;
  let files : gset string := list_to_set (filename_to_bibnick <$> names) in
  refs ← bib_nicknames bibtexparser_load bib;
  bnt ← bib_nicks_titles bibtexparser_load bib;
  let x := omap (λ nick, nick_title_line nick <$> bnt !! nick)
                (elements (files ∩ refs)) in
  let out := _printer x "Files that are good to go:" in
  let out := out +:+ _printer (elements (files ∖ refs))
                       (String nl "Files missing .bib entries:") in
  let out := out +:+ _printer (elements (refs ∖ files))
                       (String nl ".bib entries missing files:") in
  mret (StatusRun files refs bnt x out).

(** [re.compile(searchstring, re.IGNORECASE)]: the compiled pattern, as
    the truth value of its [search] on a text, or [None] when the search
    string is not a regular expression and [re.compile] raises
    [re.error]; the regular expression library is not part of the
    program. *)
Variable re_compile : string → option (string → bool).

(** [search_for(what, searchstring)] on the content [bib] of the default
    bibliography.  The search string is compiled first, then the
    bibliography is read. *)
Definition search_for (bib what searchstring : string) : search_outcome :=
  match re_compile searchstring with
  | None => ReError
  | Some r =>
      Searched
        (stuff ← bib_lookup_all bibtexparser_load bib what;
         let results : gset string := ∅ in
         mret (foldl (λ results kv,
                        if r kv.2 : bool then results ∪ {[kv.1]}
                        else results) results (map_to_list stuff)))
  end.
End Status.

(** A compiler of search strings for the examples: the string [(], which
    is not a regular expression, is refused; any other is searched for as
    it is written. *)
Definition example_compile (searchstring : string) :
    option (string → bool) :=
  if bool_decide (searchstring = "(") then None
  else Some (λ text, contains text searchstring).

(** A reader for the examples that fails on every file. *)
Definition failing_load (content : string) : result (option BibDatabase) :=
  Raise ParseError.

(** ** The text of the splitter, as the claim about it is worded *)

(** Follows the words of the amended claim, not the program: [line]
    begins, after trimming, with [@] and its parsed key is in the required
    set; the result is that key. *)
Definition required_header (line : string) (required : gset string) :
    option string :=
  if starts_entry line then
    match entry_key line with
    | Ok k => if bool_decide (k ∈ required) then Some k else None
    | _ => None
    end
  else None.

(** Follows the words of the amended claim, not the program: going down
    the lines, each required header takes its key out of the required set
    and gives the text the header, then the lines after it up to the first
    one that is blank after trimming or begins with [@] (or the end of the
    file), without those that begin with [#], then one byte 10.  The
    result is the text and the keys still required.  The lines of a block
    are passed over afterwards: none of them is a header. *)
Fixpoint extracted_blocks (ls : list string) (required : gset string) :
    string * gset string :=
  match ls with
  | [] => ("", required)
  | line :: rest =>
      match required_header line required with
      | Some k =>
          let r := extracted_blocks rest (required ∖ {[k]}) in
          (line +:+
           join (filter (λ l, not_comment l = true) (take_while in_body rest))
           +:+ String nl "" +:+ r.1,
           r.2)
      | None => extracted_blocks rest required
      end
  end.

(** Follows the words of the claim as first stated, not the program: the
    same, except that a block runs to the next line that begins, after
    trimming, with [@] (or the end of the file). *)
Fixpoint blocks_to_next_entry (ls : list string) (required : gset string) :
    string * gset string :=
  match ls with
  | [] => ("", required)
  | line :: rest =>
      match required_header line required with
      | Some k =>
          let r := blocks_to_next_entry rest (required ∖ {[k]}) in
          (line +:+
           join (filter (λ l, not_comment l = true)
                   (take_while before_next_entry rest))
           +:+ String nl "" +:+ r.1,
           r.2)
      | None => blocks_to_next_entry rest required
      end
  end.

(** ** Citation commands left open *)

(** [p] starts with a citation command and its opening brace, and nothing
    after it closes that brace or ends the attempt to match: the rest of
    [p] has no closing brace and no byte 10. *)
Definition opens_unclosed (p : string) : bool :=
  existsb (λ cmd,
    match strip_prefix ("\" +:+ cmd) p ≫= strip_prefix "{" with
    | Some t => no_char "}" t && no_nl t
    | None => false
    end) cites.

(** Some citation command that starts in [pre] is still open where [pre]
    ends: what follows [pre] belongs to its argument list. *)
Fixpoint in_open_citation (pre : string) : bool :=
  opens_unclosed pre ||
  match pre with
  | "" => false
  | String _ p => in_open_citation p
  end.

(** ** A reader that wants the braces of an entry closed *)





(** * Properties *)

(** ** Strings *)

Lemma app_cons_s (c : ascii) (s t : string) :
  String c s +:+ t = String c (s +:+ t).
Proof. reflexivity. Qed.

Lemma app_nil_l_s (s : string) : "" +:+ s = s.
Proof. reflexivity. Qed.

Lemma app_nil_r_s (s : string) : s +:+ "" = s.
Proof. induction s as [|c s IH]; [done|]. by rewrite app_cons_s, IH. Qed.

Lemma app_assoc_s (s t u : string) : (s +:+ t) +:+ u = s +:+ t +:+ u.
Proof. induction s as [|c s IH]; [done|]. by rewrite !app_cons_s, IH. Qed.

Example strip_ex : strip "  @a{k, " = "@a{k,".
Proof. reflexivity. Qed.
Example split_ex : split ","%char "a,,b," = ["a"; ""; "b"; ""].
Proof. reflexivity. Qed.
Example readlines_ex :
  readlines (String "a"%char (String nl (String nl "b"))) =
  [String "a"%char (String nl ""); String nl ""; "b"].
Proof. reflexivity. Qed.

(** ** The splitter on the pending lines *)

Lemma drop_while_length {A : Type} (p : A → bool) (l : list A) :
  length (drop_while p l) ≤ length l.
Proof. induction l as [|x l IH]; simpl; [done|]. destruct (p x); simpl; lia. Qed.

Lemma read_body_on_spec (n : nat) (ls : list string) (child_bib : string) :
  length ls < n →
  read_body_on n ls child_bib =
  Ok ((readline (drop_while in_body ls)).1,
      (readline (drop_while in_body ls)).2,
      child_bib +:+ body_text ls).
Proof.
  revert ls child_bib. induction n as [|n IH]; intros ls child_bib Hn; [lia|].
  destruct ls as [|l ls]; unfold read_body_on, body_text; simpl.
  - by rewrite app_nil_r_s.
  - destruct (in_body l) eqn:Hb; simpl.
    + specialize (IH ls). unfold read_body_on in IH.
      destruct (readline ls) as [line f] eqn:Hr. simpl.
      rewrite IH by (simpl in Hn; lia).
      f_equal. f_equal. unfold body_text.
      destruct (not_comment l) eqn:Hc.
      * rewrite filter_cons_True by done. simpl. by rewrite app_assoc_s.
      * rewrite filter_cons_False by (by rewrite Hc). done.
    + by rewrite app_nil_r_s.
Qed.

Lemma bib_strip_on_step (n : nat) (line : string) (rest : list string)
    (st : strip_state) :
  length rest < n →
  bib_strip_on (S n) (line :: rest) st =
  if bool_decide (line = "") then Ok st
  else
    b ← is_required_entry line (s_entries st);
    if b : bool then
      entry ← entry_key line;
      bib_strip_on n (drop_while in_body rest) (take_block line entry rest st)
    else bib_strip_on n rest st.
Proof.
  intros Hn. unfold bib_strip_on at 1. simpl.
  case_bool_decide; [done|].
  destruct (is_required_entry line (s_entries st)) as [[]| |]; simpl; try done.
  destruct (entry_key line) as [entry| |]; simpl; try done.
  pose proof (read_body_on_spec n rest (s_child_bib st +:+ line) Hn) as Hb.
  unfold read_body_on in Hb. destruct (readline rest) as [l f].
  rewrite Hb. simpl. unfold bib_strip_on, take_block.
  destruct (readline (drop_while in_body rest)) as [l' f']. simpl.
  by rewrite !app_assoc_s.
Qed.

Lemma bib_strip_on_fuel (n m : nat) (ls : list string) (st : strip_state) :
  length ls < n → length ls < m →
  bib_strip_on n ls st = bib_strip_on m ls st.
Proof.
  revert m ls st. induction n as [|n IH]; intros m ls st Hn Hm; [lia|].
  destruct m as [|m]; [lia|].
  destruct ls as [|line rest]; [done|]. simpl in Hn, Hm.
  rewrite !bib_strip_on_step by lia.
  case_bool_decide; [done|].
  destruct (is_required_entry line (s_entries st)) as [[]| |]; simpl; try done.
  - destruct (entry_key line) as [entry| |]; simpl; try done.
    pose proof (drop_while_length in_body rest).
    apply IH; lia.
  - apply IH; lia.
Qed.

Lemma bib_strip_from_on (n : nat) (ls : list string) (st : strip_state) :
  length ls < n → bib_strip_from ls st = bib_strip_on n ls st.
Proof.
  intros Hn. unfold bib_strip_from.
  change (bib_strip_on (length ls + 2) ls st = bib_strip_on n ls st).
  apply bib_strip_on_fuel; lia.
Qed.

(** The equations of the splitter on the pending lines. *)

Lemma bib_strip_from_nil (st : strip_state) : bib_strip_from [] st = Ok st.
Proof. reflexivity. Qed.

Lemma bib_strip_from_cons (line : string) (rest : list string)
    (st : strip_state) :
  bib_strip_from (line :: rest) st =
  if bool_decide (line = "") then Ok st
  else
    b ← is_required_entry line (s_entries st);
    if b : bool then
      entry ← entry_key line;
      bib_strip_from (drop_while in_body rest) (take_block line entry rest st)
    else bib_strip_from rest st.
Proof.
  rewrite (bib_strip_from_on (S (S (length rest)))) by (simpl; lia).
  rewrite bib_strip_on_step by lia.
  pose proof (drop_while_length in_body rest).
  case_bool_decide; [done|].
  destruct (is_required_entry line (s_entries st)) as [[]| |]; simpl; try done.
  - destruct (entry_key line) as [entry| |]; simpl; try done.
    symmetry. apply bib_strip_from_on. lia.
  - symmetry. apply bib_strip_from_on. lia.
Qed.

Lemma is_required_entry_true (line : string) (entries : gset string) :
  is_required_entry line entries = Ok true →
  starts_entry line = true ∧ ∃ k, entry_key line = Ok k ∧ k ∈ entries.
Proof.
  unfold is_required_entry. destruct (starts_entry line); [|done].
  destruct (entry_key line) as [k| |]; simpl; try done.
  intros [= Hk]. apply bool_decide_eq_true in Hk. eauto.
Qed.

Lemma is_required_entry_intro (line k : string) (entries : gset string) :
  starts_entry line = true → entry_key line = Ok k → k ∈ entries →
  is_required_entry line entries = Ok true.
Proof.
  intros Hs Hk Hin. unfold is_required_entry. rewrite Hs, Hk. simpl.
  by rewrite bool_decide_eq_true_2.
Qed.

Lemma starts_entry_nonempty (line : string) :
  starts_entry line = true → line ≠ "".
Proof. by intros Hs ->. Qed.

Lemma entry_key_terminates (line : string) : entry_key line ≠ Timeout.
Proof.
  unfold entry_key, index.
  destruct (split "{" line !! 1) as [p|]; simpl; [|done].
  by destruct (split "," p !! 0).
Qed.

Lemma is_required_entry_terminates (line : string) (entries : gset string) :
  is_required_entry line entries ≠ Timeout.
Proof.
  unfold is_required_entry. destruct (starts_entry line); [|done].
  pose proof (entry_key_terminates line). by destruct (entry_key line).
Qed.

(** The splitter never runs out of iterations. *)
Lemma bib_strip_on_terminates (n : nat) (ls : list string) (st : strip_state) :
  length ls < n → bib_strip_on n ls st ≠ Timeout.
Proof.
  revert ls st. induction n as [|n IH]; intros ls st Hn; [lia|].
  destruct ls as [|line rest]; [done|]. simpl in Hn.
  rewrite bib_strip_on_step by lia.
  case_bool_decide; [done|].
  pose proof (is_required_entry_terminates line (s_entries st)).
  pose proof (entry_key_terminates line).
  destruct (is_required_entry line (s_entries st)) as [[]| |]; simpl; try done.
  - destruct (entry_key line) as [entry| |]; simpl; try done.
    pose proof (drop_while_length in_body rest). apply IH. lia.
  - apply IH. lia.
Qed.

Lemma bib_strip_from_terminates (ls : list string) (st : strip_state) :
  bib_strip_from ls st ≠ Timeout.
Proof.
  rewrite (bib_strip_from_on (S (length ls))) by lia.
  apply bib_strip_on_terminates. lia.
Qed.

Lemma bib_strip_terminates (parent_bib : string) (entries : gset string) :
  bib_strip parent_bib entries ≠ Timeout.
Proof.
  unfold bib_strip.
  pose proof (bib_strip_from_terminates (open parent_bib)
                (StripState entries ∅ "")) as H.
  by destruct (bib_strip_from _ _).
Qed.

(** The only exception the splitter raises is the [IndexError] of a line
    that starts an entry and has no brace. *)
Lemma entry_key_raises (line : string) (e : exn) :
  entry_key line = Raise e → e = IndexError.
Proof.
  unfold entry_key, index.
  destruct (split "{" line !! 1) as [p|]; simpl; [|by intros [= <-]].
  destruct (split "," p !! 0); simpl; [done|by intros [= <-]].
Qed.

Lemma bib_strip_on_raises (n : nat) (ls : list string) (st : strip_state)
    (e : exn) :
  length ls < n → bib_strip_on n ls st = Raise e → e = IndexError.
Proof.
  revert ls st. induction n as [|n IH]; intros ls st Hn; [lia|].
  destruct ls as [|line rest]; [done|]. simpl in Hn.
  rewrite bib_strip_on_step by lia.
  case_bool_decide; [done|].
  unfold is_required_entry. destruct (starts_entry line).
  - destruct (entry_key line) as [k| |] eqn:Hk; simpl; try done.
    + pose proof (drop_while_length in_body rest).
      case_bool_decide; apply IH; lia.
    + intros [= <-]. by apply entry_key_raises in Hk.
  - simpl. apply IH. lia.
Qed.

Lemma bib_strip_raises (parent_bib : string) (entries : gset string)
    (e : exn) :
  bib_strip parent_bib entries = Raise e → e = IndexError.
Proof.
  unfold bib_strip.
  rewrite (bib_strip_from_on (S (length (open parent_bib)))) by lia.
  destruct (bib_strip_on _ _ _) as [st|e'|] eqn:Hrun; simpl; try done.
  intros [= <-]. apply bib_strip_on_raises in Hrun; [done|lia].
Qed.

Example bib_strip_no_brace :
  bib_strip (ln "@comment") {["k"]} = Raise IndexError.
Proof. vm_compute. reflexivity. Qed.

(** The loop keeps [entries] and [added_entries] a partition of what they
    held together at the start. *)
Lemma bib_strip_on_partition (n : nat) (ls : list string)
    (st st' : strip_state) :
  length ls < n →
  bib_strip_on n ls st = Ok st' →
  s_entries st ## s_added_entries st →
  s_entries st' ∪ s_added_entries st' = s_entries st ∪ s_added_entries st ∧
  s_entries st' ## s_added_entries st'.
Proof.
  revert ls st. induction n as [|n IH]; intros ls st Hn Hrun Hdisj; [lia|].
  destruct ls as [|line rest]; [by injection Hrun as <-|]. simpl in Hn.
  rewrite bib_strip_on_step in Hrun by lia.
  case_bool_decide; [by injection Hrun as <-|].
  destruct (is_required_entry line (s_entries st)) as [[]| |] eqn:Hreq;
    simpl in Hrun; try done.
  - apply is_required_entry_true in Hreq as (_ & k & Hk & Hin).
    rewrite Hk in Hrun. simpl in Hrun.
    pose proof (drop_while_length in_body rest).
    apply IH in Hrun as [Hun Hdj]; [| lia | simpl; set_solver].
    split; [|done]. rewrite Hun. simpl.
    apply set_eq. intros x. destruct (decide (x = k)); set_solver.
  - apply IH in Hrun; [done | lia | done].
Qed.

(** A run of [bib_strip] that returns is a run of the loop from the
    state with the required set, nothing added and no text. *)
Lemma bib_strip_returns (parent_bib : string) (required : gset string)
    (child : string) (added missing : gset string) :
  bib_strip parent_bib required = Ok (child, added, missing) →
  bib_strip_on (S (length (open parent_bib))) (open parent_bib)
    (StripState required ∅ "") = Ok (StripState missing added child).
Proof.
  unfold bib_strip. intros Hrun.
  destruct (bib_strip_from _ _) as [st| |] eqn:Hfrom; simpl in Hrun; try done.
  injection Hrun as <- <- <-.
  rewrite (bib_strip_from_on (S (length (open parent_bib)))) in Hfrom by lia.
  by destruct st.
Qed.

(** C2.  Whenever [bib_strip] returns, the added keys and the missing keys
    partition the required set it was given: their union is that set and
    they have no key in common. *)
Theorem bib_strip_partition (parent_bib : string)
    (required : gset string) (child : string) (added missing : gset string) :
  bib_strip parent_bib required = Ok (child, added, missing) →
  added ∪ missing = required ∧ added ∩ missing = ∅.
Proof.
  intros Hrun. apply bib_strip_returns in Hrun.
  apply bib_strip_on_partition in Hrun as [Hun Hdj].
  - simpl in Hun, Hdj. rewrite (right_id_L ∅ (∪)) in Hun. split.
    + rewrite <- Hun. apply (comm_L (∪)).
    + apply disjoint_intersection_L. by symmetry.
  - lia.
  - simpl. apply disjoint_empty_r.
Qed.

Lemma bib_strip_partition_witness :
  bib_strip (ln "@article{k," +:+ ln " title = {T}" +:+ ln "}") {["k"; "z"]} =
    Ok (ln "@article{k," +:+ ln " title = {T}" +:+ ln "}" +:+ ln "",
        {["k"]}, {["z"]}) ∧
  ({["k"]} ∪ {["z"]} : gset string) = {["k"; "z"]} ∧
  ({["k"]} ∩ {["z"]} : gset string) = ∅.
Proof.
  split; [vm_compute; reflexivity|].
  apply (bib_strip_partition
           (ln "@article{k," +:+ ln " title = {T}" +:+ ln "}")
           {["k"; "z"]}
           (ln "@article{k," +:+ ln " title = {T}" +:+ ln "}" +:+ ln "")).
  vm_compute; reflexivity.
Defined.

(** ** Lines and white space *)

Lemma nl_is_space : is_space nl = true.
Proof. reflexivity. Qed.

Lemma rstrip_app_space (x : string) (c : ascii) :
  is_space c = true → rstrip (x +:+ String c "") = rstrip x.
Proof.
  intros Hc. induction x as [|a x IH].
  - simpl. by rewrite Hc.
  - rewrite app_cons_s. simpl. by rewrite IH.
Qed.

Lemma lstrip_app (l t : string) :
  lstrip (l +:+ t) = if bool_decide (lstrip l = "") then lstrip t
                     else lstrip l +:+ t.
Proof.
  induction l as [|a l IH]; [done|].
  rewrite app_cons_s. simpl. destruct (is_space a); [done|].
  by rewrite bool_decide_eq_false_2.
Qed.

Lemma strip_app_nl (l : string) : strip (l +:+ String nl "") = strip l.
Proof.
  unfold strip. rewrite lstrip_app. case_bool_decide as H.
  - by rewrite H.
  - by rewrite rstrip_app_space.
Qed.

Lemma split_nonempty (c : ascii) (s : string) : split c s ≠ [].
Proof.
  destruct s as [|a s]; simpl; [done|].
  destruct (ascii_eqb a c); [done|]. by destruct (split c s).
Qed.

(** Splitting a line and the same line with its byte 10: only the last
    piece differs. *)
Lemma split_app_nl (c : ascii) (s : string) :
  c ≠ nl →
  ∃ init lst, split c s = init ++ [lst] ∧
              split c (s +:+ String nl "") = init ++ [lst +:+ String nl ""].
Proof.
  intros Hc. induction s as [|a s (init & lst & Hs & Hs')].
  - exists [], "". split; [done|]. simpl. unfold ascii_eqb.
    by rewrite bool_decide_eq_false_2.
  - rewrite app_cons_s. simpl. rewrite Hs, Hs'.
    destruct (ascii_eqb a c).
    + by exists ("" :: init), lst.
    + destruct init as [|p init]; simpl.
      * by exists [], (String a lst).
      * by exists (String a p :: init), lst.
Qed.

Lemma entry_key_app_nl (l : string) :
  entry_key (l +:+ String nl "") = entry_key l.
Proof.
  unfold entry_key, index.
  destruct (split_app_nl "{" l) as (init & lst & -> & ->); [done|].
  destruct init as [|p0 [|p1 init]]; simpl; [done| |done].
  destruct (split_app_nl "," lst) as (init' & lst' & -> & ->); [done|].
  destruct init' as [|q0 init']; simpl; [|done].
  by rewrite strip_app_nl.
Qed.

Lemma starts_entry_app_nl (l : string) :
  starts_entry (l +:+ String nl "") = starts_entry l.
Proof. unfold starts_entry. by rewrite strip_app_nl. Qed.

Lemma is_entry_for_app_nl (k l : string) :
  is_entry_for k (l +:+ String nl "") = is_entry_for k l.
Proof.
  unfold is_entry_for. by rewrite starts_entry_app_nl, entry_key_app_nl.
Qed.

Lemma in_body_not_entry (k l : string) :
  in_body l = true → is_entry_for k l = false.
Proof.
  unfold in_body, is_entry_for, starts_entry.
  intros [_ H]%andb_true_iff. apply bool_decide_eq_true in H.
  rewrite (bool_decide_eq_false_2 (first_char _ = _)) by done.
  by rewrite andb_false_r.
Qed.

Lemma starts_entry_not_body (l : string) :
  starts_entry l = true → in_body l = false.
Proof.
  unfold in_body, starts_entry.
  intros [_ H]%andb_true_iff. apply bool_decide_eq_true in H.
  rewrite (bool_decide_eq_false_2 (first_char _ ≠ _)) by (intros ?; done).
  by rewrite andb_false_r.
Qed.

Lemma is_entry_for_spec (k l : string) :
  is_entry_for k l = true ↔ starts_entry l = true ∧ entry_key l = Ok k.
Proof.
  unfold is_entry_for. split.
  - intros [Hs Hk]%andb_true_iff. split; [done|].
    destruct (entry_key l); try done. by apply bool_decide_eq_true in Hk as ->.
  - intros [-> ->]. simpl. by apply bool_decide_eq_true.
Qed.

(** ** The lines of a text *)

Lemma readlines_no_nl (b : string) :
  no_nl b = true → b ≠ "" → readlines b = [b].
Proof.
  induction b as [|a b IH]; [done|]. simpl.
  intros [Ha Hb]%andb_true_iff _. apply negb_true_iff in Ha. rewrite Ha.
  destruct b as [|a' b]; [done|]. by rewrite IH.
Qed.

Lemma readlines_complete (b : string) :
  no_nl b = true → readlines (b +:+ String nl "") = [b +:+ String nl ""].
Proof.
  induction b as [|a b IH]; [done|]. rewrite app_cons_s. simpl.
  intros [Ha Hb]%andb_true_iff. apply negb_true_iff in Ha. rewrite Ha.
  by rewrite IH.
Qed.

Lemma readlines_app_closed (b s : string) :
  readlines ((b +:+ String nl "") +:+ s) =
  readlines (b +:+ String nl "") ++ readlines s.
Proof.
  induction b as [|a b IH]; [done|]. rewrite !app_cons_s. simpl.
  destruct (ascii_eqb a nl); [by rewrite IH|].
  rewrite IH. destruct (readlines (b +:+ String nl "")) eqn:Hr; [|done].
  exfalso. clear IH. revert Hr. clear. induction b as [|a b IH]; [done|].
  rewrite app_cons_s. simpl. destruct (ascii_eqb a nl); [done|].
  by destruct (readlines (b +:+ String nl "")).
Qed.

Lemma readlines_app (c s : string) :
  closed_text c → readlines (c +:+ s) = readlines c ++ readlines s.
Proof. intros [->|[b ->]]; [done|]. apply readlines_app_closed. Qed.

Lemma readlines_file_lines (s : string) : file_lines (readlines s).
Proof.
  induction s as [|a s IH]; simpl; [constructor|].
  destruct (ascii_eqb a nl) eqn:Ha.
  - apply bool_decide_eq_true in Ha as ->. apply file_lines_cons; [|done].
    by exists "".
  - inversion IH as [|l [Hl Hn]|l ls (b & -> & Hb) Hls].
    + apply file_lines_last. split; [done|]. simpl. by rewrite Ha.
    + apply file_lines_last. split; [done|]. simpl. by rewrite Ha.
    + apply file_lines_cons; [|done]. exists (String a b). split; [done|].
      simpl. by rewrite Ha.
Qed.

Lemma file_lines_tail (l : string) (ls : list string) :
  file_lines (l :: ls) → file_lines ls.
Proof. inversion 1; [constructor|done]. Qed.

Lemma file_lines_drop_while (p : string → bool) (ls : list string) :
  file_lines ls → file_lines (drop_while p ls).
Proof.
  induction ls as [|l ls IH]; simpl; [done|]. intros H.
  destruct (p l); [|done]. apply IH. by eapply file_lines_tail.
Qed.

Lemma file_lines_take_while (p : string → bool) (ls : list string) :
  file_lines ls → file_lines (take_while p ls).
Proof.
  induction 1 as [|l Hl|l ls Hl Hls IH]; simpl.
  - constructor.
  - destruct (p l); by constructor.
  - destruct (p l); by constructor.
Qed.

Lemma file_lines_filter (P : string → Prop) `{∀ x, Decision (P x)}
    (ls : list string) :
  file_lines ls → file_lines (filter P ls).
Proof.
  induction 1 as [|l Hl|l ls Hl Hls IH].
  - constructor.
  - destruct (decide (P l)).
    + rewrite filter_cons_True by done. by constructor.
    + rewrite filter_cons_False by done. constructor.
  - destruct (decide (P l)).
    + rewrite filter_cons_True by done. by constructor.
    + by rewrite filter_cons_False.
Qed.

Lemma file_lines_nonempty (ls : list string) :
  file_lines ls → Forall (λ l, l ≠ "") ls.
Proof.
  induction 1 as [|l [Hl _]|l ls (b & -> & _) Hls IH]; constructor; try done.
  by destruct b.
Qed.

(** ** Counting the blocks of a key in the text of the splitter *)

Lemma is_entry_for_blank (k : string) : is_entry_for k (String nl "") = false.
Proof. reflexivity. Qed.

Lemma count_join_lines (k : string) (M : list string) :
  file_lines M →
  length (filter (λ l, is_entry_for k l = true)
            (readlines (join M +:+ String nl ""))) =
  length (filter (λ l, is_entry_for k l = true) M).
Proof.
  induction 1 as [|l [Hl Hn]|l ls (b & -> & Hb) Hls IH].
  - done.
  - simpl. rewrite app_nil_r_s, readlines_complete by done.
    destruct (is_entry_for k l) eqn:He.
    + rewrite !filter_cons_True; [done..|]. by rewrite is_entry_for_app_nl.
    + rewrite !filter_cons_False; [done| by rewrite He |].
      by rewrite is_entry_for_app_nl, He.
  - simpl. rewrite app_assoc_s, readlines_app_closed, readlines_complete by done.
    rewrite filter_app, length_app, IH.
    destruct (is_entry_for k (b +:+ String nl "")) eqn:He.
    + by rewrite !filter_cons_True.
    + rewrite !filter_cons_False; [done|by rewrite He..].
Qed.

Lemma take_while_Forall {A : Type} (p : A → bool) (l : list A) :
  Forall (λ x, p x = true) (take_while p l).
Proof.
  induction l as [|x l IH]; simpl; [constructor|].
  destruct (p x) eqn:Hp; by constructor.
Qed.

Lemma body_lines_no_entry (k : string) (rest : list string) :
  filter (λ l, is_entry_for k l = true)
    (filter (λ l, not_comment l = true) (take_while in_body rest)) = [].
Proof.
  pose proof (take_while_Forall in_body rest) as H.
  induction H as [|l ls Hl _ IH]; [done|].
  destruct (not_comment l) eqn:Hc.
  - rewrite (filter_cons_True (λ l, not_comment l = true)) by done.
    rewrite filter_cons_False; [done|]. by rewrite in_body_not_entry.
  - rewrite (filter_cons_False (λ l, not_comment l = true)); [done|].
    by rewrite Hc.
Qed.

Lemma block_file_lines (line : string) (rest : list string) :
  file_lines (line :: rest) →
  file_lines (line :: filter (λ l, not_comment l = true)
                        (take_while in_body rest)).
Proof.
  inversion 1 as [|l Hl|l ls Hl Hls]; subst.
  - by constructor.
  - constructor; [done|].
    by apply file_lines_filter, file_lines_take_while.
Qed.

Lemma closed_text_snoc (s : string) : closed_text (s +:+ String nl "").
Proof. right. by exists s. Qed.

(** The text of one block holds a block of [k] exactly when its first
    line starts an entry with key [k]. *)
Lemma count_blocks_take_block (k child line : string) (rest : list string) :
  closed_text child → file_lines (line :: rest) →
  count_blocks k (child +:+ line +:+ body_text rest +:+ String nl "") =
  count_blocks k child + (if is_entry_for k line then 1 else 0).
Proof.
  intros Hc Hf. unfold count_blocks, body_text.
  rewrite readlines_app, filter_app, length_app by done. f_equal.
  rewrite <- app_assoc_s.
  change (line +:+ join ?M) with (join (line :: M)).
  rewrite count_join_lines by by apply block_file_lines.
  destruct (is_entry_for k line) eqn:He.
  - rewrite filter_cons_True by done. simpl. by rewrite body_lines_no_entry.
  - rewrite filter_cons_False by (by rewrite He). by rewrite body_lines_no_entry.
Qed.

Lemma has_entry_drop_body (k : string) (rest : list string) :
  has_entry k (drop_while in_body rest) = has_entry k rest.
Proof.
  induction rest as [|l rest IH]; [done|]. simpl.
  destruct (in_body l) eqn:Hb; [|done].
  by rewrite IH, (in_body_not_entry k l).
Qed.

Lemma is_required_entry_false (k line : string) (entries : gset string) :
  is_required_entry line entries = Ok false →
  k ∈ entries → is_entry_for k line = false.
Proof.
  intros Hreq Hin. destruct (is_entry_for k line) eqn:He; [|done].
  apply is_entry_for_spec in He as [Hs Hk].
  by rewrite (is_required_entry_intro line k) in Hreq.
Qed.

Lemma is_entry_for_key (k k' line : string) :
  starts_entry line = true → entry_key line = Ok k' →
  is_entry_for k line = bool_decide (k' = k).
Proof. intros Hs Hk. unfold is_entry_for. by rewrite Hs, Hk. Qed.

(** The text of the splitter gains one block of [k] when [k] is required
    and some pending line starts its entry, and none otherwise. *)
Lemma bib_strip_on_count (k : string) (n : nat) (ls : list string)
    (st st' : strip_state) :
  length ls < n → file_lines ls → closed_text (s_child_bib st) →
  bib_strip_on n ls st = Ok st' →
  count_blocks k (s_child_bib st') =
  count_blocks k (s_child_bib st) +
  (if bool_decide (k ∈ s_entries st) && has_entry k ls then 1 else 0).
Proof.
  revert ls st. induction n as [|n IH]; intros ls st Hn Hf Hc Hrun; [lia|].
  destruct ls as [|line rest].
  { injection Hrun as <-. rewrite andb_false_r. lia. }
  simpl in Hn. rewrite bib_strip_on_step in Hrun by lia.
  case_bool_decide as Hline.
  { subst. apply file_lines_nonempty in Hf. by inversion Hf. }
  destruct (is_required_entry line (s_entries st)) as [[]| |] eqn:Hreq;
    simpl in Hrun; try done.
  - apply is_required_entry_true in Hreq as (Hs & k' & Hk & Hin).
    rewrite Hk in Hrun. simpl in Hrun.
    pose proof (drop_while_length in_body rest).
    apply IH in Hrun;
      [| lia | apply file_lines_drop_while; by eapply file_lines_tail
       | simpl; rewrite <- !app_assoc_s; apply closed_text_snoc ].
    rewrite Hrun. clear Hrun. simpl.
    rewrite count_blocks_take_block, has_entry_drop_body by done.
    rewrite (is_entry_for_key k k' line) by done.
    destruct (decide (k' = k)) as [->|Hne].
    + rewrite (bool_decide_eq_true_2 (k = k)) by done.
      rewrite (bool_decide_eq_false_2 (k ∈ _ ∖ _)) by set_solver.
      rewrite (bool_decide_eq_true_2 (k ∈ s_entries st)) by done. simpl. lia.
    + rewrite (bool_decide_eq_false_2 (k' = k)) by done.
      rewrite Nat.add_0_r. f_equal. simpl.
      destruct (decide (k ∈ s_entries st)).
      * rewrite !bool_decide_eq_true_2; [done..|set_solver].
      * rewrite !bool_decide_eq_false_2; [done..|set_solver].
  - apply IH in Hrun; [| lia | by eapply file_lines_tail | done].
    rewrite Hrun. clear Hrun. f_equal. simpl.
    destruct (decide (k ∈ s_entries st)) as [Hin|Hin].
    + by rewrite (is_required_entry_false k line (s_entries st)).
    + by rewrite !bool_decide_eq_false_2.
Qed.

(** A key still required at the end never had an entry among the lines. *)
Lemma bib_strip_on_missing (k : string) (n : nat) (ls : list string)
    (st st' : strip_state) :
  length ls < n → file_lines ls →
  bib_strip_on n ls st = Ok st' →
  k ∈ s_entries st' → k ∈ s_entries st ∧ has_entry k ls = false.
Proof.
  revert ls st. induction n as [|n IH]; intros ls st Hn Hf Hrun Hin; [lia|].
  destruct ls as [|line rest]; [by injection Hrun as <-|].
  simpl in Hn. rewrite bib_strip_on_step in Hrun by lia.
  case_bool_decide as Hline.
  { subst. apply file_lines_nonempty in Hf. by inversion Hf. }
  destruct (is_required_entry line (s_entries st)) as [[]| |] eqn:Hreq;
    simpl in Hrun; try done.
  - apply is_required_entry_true in Hreq as (Hs & k' & Hk & Hin').
    rewrite Hk in Hrun. simpl in Hrun.
    pose proof (drop_while_length in_body rest).
    apply IH in Hrun as [Hin1 Hno];
      [| lia | apply file_lines_drop_while; by eapply file_lines_tail | done].
    simpl in Hin1. rewrite has_entry_drop_body in Hno.
    split; [set_solver|]. simpl. rewrite Hno.
    rewrite (is_entry_for_key k k' line) by done.
    rewrite bool_decide_eq_false_2; [done|set_solver].
  - apply IH in Hrun as [Hin1 Hno]; [| lia | by eapply file_lines_tail | done].
    split; [done|]. simpl. rewrite Hno.
    by rewrite (is_required_entry_false k line (s_entries st)).
Qed.

(** The splitter only appends to the text. *)
Lemma bib_strip_on_appends (n : nat) (ls : list string)
    (st st' : strip_state) :
  length ls < n → bib_strip_on n ls st = Ok st' →
  ∃ c, s_child_bib st' = s_child_bib st +:+ c.
Proof.
  revert ls st. induction n as [|n IH]; intros ls st Hn Hrun; [lia|].
  destruct ls as [|line rest].
  { injection Hrun as <-. exists "". by rewrite app_nil_r_s. }
  simpl in Hn. rewrite bib_strip_on_step in Hrun by lia.
  case_bool_decide as Hline.
  { injection Hrun as <-. exists "". by rewrite app_nil_r_s. }
  destruct (is_required_entry line (s_entries st)) as [[]| |] eqn:Hreq;
    simpl in Hrun; try done.
  - destruct (entry_key line) as [k'| |]; simpl in Hrun; try done.
    pose proof (drop_while_length in_body rest).
    apply IH in Hrun as [c Hc]; [|lia]. simpl in Hc.
    exists ((line +:+ body_text rest +:+ String nl "") +:+ c).
    by rewrite Hc, !app_assoc_s.
  - apply IH in Hrun; [done|lia].
Qed.

Lemma drop_while_app_stop {A : Type} (p : A → bool) (a b : list A) (x : A) :
  p x = false → drop_while p (a ++ x :: b) = drop_while p a ++ x :: b.
Proof.
  intros Hx. induction a as [|y a IH]; simpl; [by rewrite Hx|].
  by destruct (p y).
Qed.

Lemma drop_while_Forall {A : Type} (P : A → Prop) (p : A → bool) (l : list A) :
  Forall P l → Forall P (drop_while p l).
Proof.
  induction 1 as [|x l Hx Hl IH]; simpl; [constructor|].
  destruct (p x); [done|by constructor].
Qed.

(** The outer loop reaches the first line that starts an entry of a
    required key [k] with [k] still required. *)
Lemma bib_strip_on_reaches (k hdr : string) (rest : list string) (n : nat)
    (pre : list string) (st st' : strip_state) :
  length (pre ++ hdr :: rest) < n →
  file_lines (pre ++ hdr :: rest) →
  Forall (λ l, is_entry_for k l = false) pre →
  starts_entry hdr = true →
  k ∈ s_entries st →
  bib_strip_on n (pre ++ hdr :: rest) st = Ok st' →
  ∃ st1 c, bib_strip_from (hdr :: rest) st1 = Ok st' ∧
           k ∈ s_entries st1 ∧
           s_child_bib st1 = s_child_bib st +:+ c.
Proof.
  intros Hn Hf Hpre Hhdr. revert pre st Hn Hf Hpre.
  induction n as [|n IH]; intros pre st Hn Hf Hpre Hin Hrun; [lia|].
  destruct pre as [|line pre].
  { exists st, "". rewrite app_nil_r_s. split; [|done].
    by rewrite (bib_strip_from_on (S n)). }
  simpl in Hn, Hrun. rewrite bib_strip_on_step in Hrun by lia.
  case_bool_decide as Hline.
  { subst. apply file_lines_nonempty in Hf. by inversion Hf. }
  apply Forall_cons in Hpre as [Hl Hpre].
  destruct (is_required_entry line (s_entries st)) as [[]| |] eqn:Hreq;
    simpl in Hrun; try done.
  - apply is_required_entry_true in Hreq as (Hs & k' & Hk & Hin').
    rewrite Hk in Hrun. simpl in Hrun.
    rewrite (is_entry_for_key k k' line) in Hl by done.
    apply bool_decide_eq_false in Hl.
    rewrite drop_while_app_stop in Hrun by by apply starts_entry_not_body.
    pose proof (drop_while_length in_body pre).
    apply IH in Hrun as (st1 & c & Hrun & Hin1 & Hc).
    + exists st1, ((line +:+ body_text (pre ++ hdr :: rest) +:+ String nl "") +:+ c).
      split; [done|]. split; [done|]. rewrite Hc. simpl.
      by rewrite !app_assoc_s.
    + rewrite length_app in *. simpl in *. lia.
    + rewrite <- (drop_while_app_stop in_body) by by apply starts_entry_not_body.
      apply file_lines_drop_while. by eapply file_lines_tail.
    + by apply drop_while_Forall.
    + simpl. set_solver.
  - apply IH in Hrun; [done | lia | by eapply file_lines_tail | done..].
Qed.

Lemma has_entry_app (k : string) (pre : list string) (hdr : string)
    (rest : list string) :
  is_entry_for k hdr = true → has_entry k (pre ++ hdr :: rest) = true.
Proof.
  intros He. unfold has_entry. rewrite existsb_app. simpl. rewrite He.
  by rewrite orb_true_r.
Qed.

(** C4.  When the required key [k] has a block in the parent text, however
    many further blocks of [k] follow, the returned text holds exactly one
    block of [k], it is the block of the first line that starts an entry
    of [k], and [k] is added and no longer missing. *)
Theorem bib_strip_first_occurrence (parent_bib k hdr : string)
    (pre rest : list string) (required : gset string)
    (child : string) (added missing : gset string) :
  open parent_bib = pre ++ hdr :: rest →
  Forall (λ l, is_entry_for k l = false) pre →
  is_entry_for k hdr = true →
  k ∈ required →
  bib_strip parent_bib required = Ok (child, added, missing) →
  count_blocks k child = 1 ∧
  (∃ c1 c2, child = c1 +:+ (hdr +:+ body_text rest +:+ String nl "") +:+ c2) ∧
  k ∈ added ∧ k ∉ missing.
Proof.
  intros Hopen Hpre Hhdr Hin Hrun. unfold bib_strip in Hrun.
  destruct (bib_strip_from _ _) as [st'| |] eqn:Hfrom; simpl in Hrun; try done.
  injection Hrun as <- <- <-.
  pose proof (readlines_file_lines parent_bib) as Hf. fold (open parent_bib) in Hf.
  rewrite (bib_strip_from_on (S (length (open parent_bib)))) in Hfrom by lia.
  assert (k ∉ s_entries st') as Hmiss.
  { intros Hk.
    apply (bib_strip_on_missing k) in Hfrom as [_ Hno]; [| lia | done..].
    rewrite Hopen in Hno. by rewrite has_entry_app in Hno. }
  split; [|split; [|split; [|done]]].
  - apply (bib_strip_on_count k) in Hfrom as ->; [| lia | done | by left].
    simpl. rewrite bool_decide_eq_true_2 by done.
    rewrite Hopen. by rewrite has_entry_app.
  - rewrite Hopen in Hfrom, Hf.
    apply is_entry_for_spec in Hhdr as [Hs Hk].
    apply (bib_strip_on_reaches k) in Hfrom as (st1 & c1 & Hfrom & Hin1 & Hc1);
      [| rewrite <- Hopen; lia | done..].
    rewrite bib_strip_from_cons in Hfrom.
    rewrite bool_decide_eq_false_2 in Hfrom by by apply starts_entry_nonempty.
    rewrite (is_required_entry_intro hdr k) in Hfrom by done.
    simpl in Hfrom. rewrite Hk in Hfrom. simpl in Hfrom.
    rewrite (bib_strip_from_on (S (length (drop_while in_body rest)))) in Hfrom
      by lia.
    apply bib_strip_on_appends in Hfrom as [c2 Hc2]; [|lia].
    exists c1, c2. rewrite Hc2. simpl. rewrite Hc1. simpl.
    by rewrite !app_assoc_s.
  - apply bib_strip_on_partition in Hfrom as [Hun _];
      [| lia | simpl; set_solver].
    simpl in Hun. set_solver.
Qed.

Lemma bib_strip_first_occurrence_witness :
  count_blocks "k"
    (ln "@book{k," +:+ ln " year = 1" +:+ ln "}" +:+ ln "") = 1 ∧
  (∃ c1 c2,
      ln "@book{k," +:+ ln " year = 1" +:+ ln "}" +:+ ln "" =
      c1 +:+ (ln "@book{k," +:+
              body_text [ln " year = 1"; ln "}"; ln "@misc{k,";
                         ln " year = 2"; ln "}"] +:+ String nl "") +:+ c2) ∧
  "k" ∈ ({["k"]} : gset string) ∧ "k" ∉ (∅ : gset string).
Proof.
  apply (bib_strip_first_occurrence
           (ln "% refs" +:+ ln "@book{k," +:+ ln " year = 1" +:+ ln "}" +:+
            ln "@misc{k," +:+ ln " year = 2" +:+ ln "}")
           "k" (ln "@book{k,") [ln "% refs"]
           [ln " year = 1"; ln "}"; ln "@misc{k,"; ln " year = 2"; ln "}"]
           {["k"]}).
  - vm_compute; reflexivity.
  - repeat constructor.
  - vm_compute; reflexivity.
  - apply elem_of_singleton. reflexivity.
  - vm_compute; reflexivity.
Defined.

(** ** Reports *)

Lemma length_app_s (s t : string) :
  String.length (s +:+ t) = String.length s + String.length t.
Proof. induction s as [|c s IH]; [done|]. rewrite app_cons_s. simpl. by rewrite IH. Qed.

Lemma str_mul_length (s : string) (n : nat) :
  String.length (str_mul s n) = n * String.length s.
Proof. induction n as [|n IH]; [done|]. simpl. by rewrite length_app_s, IH. Qed.

Lemma printer_loop_spec (i : nat) (items : list string) (out : string) :
  printer_loop i items out =
  out +:+ join (imap (λ j thing, printer_line (i + j) thing) items).
Proof.
  revert i out. induction items as [|thing items IH]; intros i out; simpl.
  - by rewrite app_nil_r_s.
  - rewrite IH, app_assoc_s, Nat.add_0_r. do 3 f_equal.
    apply imap_ext. intros j x _. simpl. f_equal. lia.
Qed.

Example printer_ex :
  _printer (elements ({["b"; "a"]} : gset string)) "Refs:" =
  ln "Refs:" +:+ ln "=====" +:+ ln "1. a" +:+ ln "2. b".
Proof. vm_compute. reflexivity. Qed.

(** C8.  For a set of items and a header, [_printer] returns the empty
    string when the set is empty; otherwise the header line, a line of as
    many [=] as the header has bytes, and one line [i. item] for each item,
    numbered from 1 in the lexicographic order of the items. *)
Theorem printer_renders (things : gset string) (msg : string) :
  _printer (elements (∅ : gset string)) msg = "" ∧
  Sorted String.le (sorted (elements things)) ∧
  sorted (elements things) ≡ₚ elements things ∧
  String.length (str_mul "=" (String.length msg)) = String.length msg ∧
  _printer (elements things) msg =
    if decide (things = ∅) then ""
    else
      msg +:+ String nl "" +:+
      str_mul "=" (String.length msg) +:+ String nl "" +:+
      join (imap (λ j thing,
                    str_of_nat (j + 1) +:+ ". " +:+ thing +:+ String nl "")
              (sorted (elements things))).
Proof.
  split; [by rewrite elements_empty|].
  split; [apply Sorted_merge_sort; apply _|].
  split; [apply merge_sort_Permutation|].
  split; [rewrite str_mul_length; simpl; lia|].
  unfold _printer. destruct (decide (things = ∅)) as [->|Hne].
  - by rewrite elements_empty.
  - destruct (elements things) as [|x l] eqn:He.
    { by apply elements_empty_inv, leibniz_equiv in He. }
    simpl length. simpl Nat.ltb. cbv iota.
    rewrite printer_loop_spec. rewrite app_nil_l_s, !app_assoc_s. done.
Qed.

(** ** File names and keys *)

Example filename_to_bibnick_ex1 :
  filename_to_bibnick "[Smith2020]notes.pdf" = "Smith2020".
Proof. reflexivity. Qed.
Example filename_to_bibnick_ex2 :
  filename_to_bibnick "article.pdf" = "article.pdf".
Proof. reflexivity. Qed.
Example filename_to_bibnick_ex3 :
  filename_to_bibnick "[a]b[c].pdf" = "a]b[c".
Proof. reflexivity. Qed.

Example find_pdfs_ex :
  find_pdfs [("refs", ["article.pdf"; "notes.txt"; "[Smith2020]notes.pdf"])] =
  Ok ["article"; "[Smith2020]notes"].
Proof. reflexivity. Qed.

Lemma dot_star_bracket_sound (r g : string) :
  dot_star_bracket r = Some g →
  no_nl g = true ∧ ∃ post, r = g +:+ "]" +:+ post.
Proof.
  revert g. induction r as [|c r IH]; intros g; simpl; [done|].
  destruct (ascii_eqb c nl) eqn:Hc.
  - destruct (ascii_eqb c "]") eqn:Hb; [|done]. intros [= <-].
    apply bool_decide_eq_true in Hb as ->. split; [done|]. by exists r.
  - destruct (dot_star_bracket r) as [g'|].
    + intros [= <-]. destruct (IH g') as [Hn [post ->]]; [done|].
      split; [simpl; by rewrite Hc|]. by exists post.
    + destruct (ascii_eqb c "]") eqn:Hb; [|done]. intros [= <-].
      apply bool_decide_eq_true in Hb as ->. split; [done|]. by exists r.
Qed.

Lemma dot_star_bracket_complete (g post : string) :
  no_nl g = true → is_Some (dot_star_bracket (g +:+ "]" +:+ post)).
Proof.
  induction g as [|c g IH]; intros Hn.
  - change ("" +:+ "]" +:+ post) with (String "]" post). simpl.
    destruct (dot_star_bracket post); by eexists.
  - simpl in Hn. apply andb_true_iff in Hn as [Hc Hn].
    apply negb_true_iff in Hc. rewrite app_cons_s. simpl. rewrite Hc.
    destruct (IH Hn) as [g' ->]. by eexists.
Qed.

Lemma match_bracket_sound (s g : string) :
  match_bracket s = Some g →
  g ≠ "" ∧ no_nl g = true ∧ ∃ post, s = "[" +:+ g +:+ "]" +:+ post.
Proof.
  unfold match_bracket. destruct s as [|a [|c r]]; [done| |].
  { by destruct a as [[] [] [] [] [] [] [] []]. }
  destruct a as [[] [] [] [] [] [] [] []]; try done.
  destruct (ascii_eqb c nl) eqn:Hc; [done|].
  destruct (dot_star_bracket r) as [g'|] eqn:Hd; [|done].
  intros [= <-]. apply dot_star_bracket_sound in Hd as [Hn [post ->]].
  split; [done|]. split; [simpl; by rewrite Hc|]. by exists post.
Qed.

Lemma search_bracket_cons (a : ascii) (s : string) :
  search_bracket (String a s) =
  match match_bracket (String a s) with
  | Some g => Some g
  | None => search_bracket s
  end.
Proof. reflexivity. Qed.

Lemma search_bracket_sound (s g : string) :
  search_bracket s = Some g →
  g ≠ "" ∧ no_nl g = true ∧ ∃ pre post, s = pre +:+ "[" +:+ g +:+ "]" +:+ post.
Proof.
  induction s as [|a s IH].
  - simpl. done.
  - rewrite search_bracket_cons.
    destruct (match_bracket (String a s)) as [g'|] eqn:Hm.
    + intros [= ->]. apply match_bracket_sound in Hm as (? & ? & post & ->).
      split; [done|]. split; [done|]. by exists "", post.
    + intros Hs. destruct (IH Hs) as (? & ? & pre & post & ->).
      split; [done|]. split; [done|]. by exists (String a pre), post.
Qed.

Lemma search_bracket_complete (pre g post : string) :
  g ≠ "" → no_nl g = true →
  is_Some (search_bracket (pre +:+ "[" +:+ g +:+ "]" +:+ post)).
Proof.
  intros Hg Hn. induction pre as [|a pre IH].
  - rewrite app_nil_l_s. destruct g as [|c g]; [done|].
    simpl in Hn. apply andb_true_iff in Hn as [Hc Hn].
    apply negb_true_iff in Hc.
    change ("[" +:+ String c g +:+ "]" +:+ post)
      with (String "[" (String c (g +:+ "]" +:+ post))).
    rewrite search_bracket_cons. unfold match_bracket. rewrite Hc.
    destruct (dot_star_bracket_complete g post Hn) as [g' ->]. by eexists.
  - rewrite app_cons_s, search_bracket_cons.
    destruct (match_bracket _); [by eexists|done].
Qed.

(** C7, as the program has it.  [filename_to_bibnick] returns the content
    of a bracketed part of the file name when the name has a bracketed
    part whose content is not empty and has no line break; otherwise it
    returns the whole file name. *)
Theorem filename_to_bibnick_brackets (filename : string) :
  (∃ pre g post, filename = pre +:+ "[" +:+ g +:+ "]" +:+ post ∧
                 g ≠ "" ∧ no_nl g = true ∧
                 filename_to_bibnick filename = g) ∨
  ((¬ ∃ pre g post, filename = pre +:+ "[" +:+ g +:+ "]" +:+ post ∧
                    g ≠ "" ∧ no_nl g = true) ∧
   filename_to_bibnick filename = filename).
Proof.
  unfold filename_to_bibnick.
  destruct (search_bracket filename) as [g|] eqn:Hs.
  - left. apply search_bracket_sound in Hs as (? & ? & pre & post & ->).
    by exists pre, g, post.
  - right. split; [|done]. intros (pre & g & post & -> & Hg & Hn).
    destruct (search_bracket_complete pre g post Hg Hn) as [? H].
    by rewrite H in Hs.
Qed.

(** C7, as the claim words it, fails on empty brackets, and on brackets
    around a line break: the name has a bracketed part, but the whole name
    is returned, which is the content of none of its bracketed parts. *)
Lemma filename_to_bibnick_empty_brackets :
  ((∃ pre g post, "[].pdf" = pre +:+ "[" +:+ g +:+ "]" +:+ post) ∧
   filename_to_bibnick "[].pdf" = "[].pdf" ∧
   ¬ (∃ pre g post, "[].pdf" = pre +:+ "[" +:+ g +:+ "]" +:+ post ∧
                    filename_to_bibnick "[].pdf" = g)) ∧
  ((∃ pre g post, "[" +:+ String nl "].pdf" =
                  pre +:+ "[" +:+ g +:+ "]" +:+ post ∧ g ≠ "") ∧
   filename_to_bibnick ("[" +:+ String nl "].pdf") =
     "[" +:+ String nl "].pdf").
Proof.
  split.
  - split; [by exists "", "", ".pdf"|]. split; [reflexivity|].
    intros (pre & g & post & Heq & Hg).
    change (filename_to_bibnick "[].pdf") with "[].pdf" in Hg. subst g.
    apply (f_equal String.length) in Heq.
    rewrite !length_app_s in Heq. simpl in Heq. lia.
  - split; [|reflexivity]. by exists "", (String nl ""), ".pdf".
Qed.

(** ** Finding the PDF of a key *)

Lemma startswith_spec (s p : string) :
  startswith s p = true ↔ ∃ post, s = p +:+ post.
Proof.
  revert s. induction p as [|a p IH]; intros s.
  - split; [by exists s|by destruct s].
  - destruct s as [|b s]; simpl.
    + split; [done|]. by intros [post ?].
    + rewrite andb_true_iff, IH. unfold ascii_eqb. rewrite bool_decide_eq_true.
      split.
      * intros [-> [post ->]]. by exists post.
      * intros [post [= -> ->]]. split; [done|]. by exists post.
Qed.

(** [p in s] is the substring test. *)
Lemma contains_spec (s p : string) :
  contains s p = true ↔ ∃ pre post, s = pre +:+ p +:+ post.
Proof.
  induction s as [|a s IH].
  - change (contains "" p) with (startswith "" p || false).
    rewrite orb_false_r, startswith_spec. split.
    + intros [post ->]. by exists "", post.
    + intros (pre & post & H). destruct pre; [by exists post|done].
  - change (contains (String a s) p)
      with (startswith (String a s) p || contains s p).
    rewrite orb_true_iff, startswith_spec, IH. split.
    + intros [[post ->]|(pre & post & ->)].
      * by exists "", post.
      * by exists (String a pre), post.
    + intros ([|b pre] & post & H).
      * left. by exists post.
      * right. injection H as -> ->. by exists pre, post.
Qed.

Lemma endswith_spec (s p : string) :
  endswith s p = true ↔ ∃ pre, s = pre +:+ p.
Proof.
  induction s as [|a s IH].
  - change (endswith "" p) with (bool_decide ("" = p) || false).
    rewrite orb_false_r, bool_decide_eq_true. split.
    + intros <-. by exists "".
    + intros [pre H]. by destruct pre.
  - change (endswith (String a s) p)
      with (bool_decide (String a s = p) || endswith s p).
    rewrite orb_true_iff, bool_decide_eq_true, IH. split.
    + intros [<-|[pre ->]]; [by exists ""|by exists (String a pre)].
    + intros [[|b pre] H]; [by left|]. right. injection H as -> ->.
      by exists pre.
Qed.

Lemma find_in_filenames_spec (abspath : string → string)
    (bibnick root : string) (filenames : list string) :
  match find_in_filenames abspath bibnick root filenames with
  | Some p =>
      ∃ pre filename post,
        filenames = pre ++ filename :: post ∧
        Forall (λ f, pdf_matches bibnick f = false) pre ∧
        pdf_matches bibnick filename = true ∧
        p = abspath (path_join root filename)
  | None => Forall (λ f, pdf_matches bibnick f = false) filenames
  end.
Proof.
  induction filenames as [|f fs IH]; simpl; [constructor|].
  destruct (pdf_matches bibnick f) eqn:Hm.
  - by exists [], f, fs.
  - destruct (find_in_filenames abspath bibnick root fs).
    + destruct IH as (pre & g & post & -> & Hpre & Hg & ->).
      exists (f :: pre), g, post. split; [done|]. split; [by constructor|done].
    + by constructor.
Qed.

Lemma find_pdf_from_bibnick_spec (abspath : string → string)
    (bibnick : string) (walk : list (string * list string)) :
  match find_pdf_from_bibnick abspath bibnick walk with
  | Some p =>
      ∃ pre root filename post,
        walk_files walk = pre ++ (root, filename) :: post ∧
        Forall (λ rf, pdf_matches bibnick rf.2 = false) pre ∧
        pdf_matches bibnick filename = true ∧
        p = abspath (path_join root filename)
  | None => Forall (λ rf, pdf_matches bibnick rf.2 = false) (walk_files walk)
  end.
Proof.
  induction walk as [|[root fs] walk IH]; simpl; [constructor|].
  pose proof (find_in_filenames_spec abspath bibnick root fs) as Hin.
  change (walk_files ((root, fs) :: walk))
    with (((λ f, (root, f)) <$> fs) ++ walk_files walk).
  destruct (find_in_filenames abspath bibnick root fs) as [p|].
  - destruct Hin as (pre & f & post & -> & Hpre & Hf & ->).
    exists ((λ f, (root, f)) <$> pre), root, f,
           (((λ f, (root, f)) <$> post) ++ walk_files walk).
    split; [by rewrite fmap_app, <- app_assoc|].
    split; [by apply Forall_fmap|done].
  - assert (Forall (λ rf, pdf_matches bibnick rf.2 = false)
              ((λ f, (root, f)) <$> fs)) as Hfs by by apply Forall_fmap.
    destruct (find_pdf_from_bibnick abspath bibnick walk).
    + destruct IH as (pre & r & f & post & -> & Hpre & Hf & ->).
      exists (((λ f, (root, f)) <$> fs) ++ pre), r, f, post.
      split; [by rewrite <- app_assoc|].
      split; [by apply Forall_app|done].
    + by apply Forall_app.
Qed.

(** C10.  [find_pdf_from_bibnick] returns the path of the first file of the
    walk whose name has the key as a substring and ends with [.pdf], and no
    value when no file name does; the match is on the substring, so the key
    [Smith] finds [[Smith2020]paper.pdf], whose bracketed key is another. *)
Theorem find_pdf_from_bibnick_substring (abspath : string → string) :
  (∀ bibnick walk,
     match find_pdf_from_bibnick abspath bibnick walk with
     | Some p =>
         ∃ pre root filename post,
           walk_files walk = pre ++ (root, filename) :: post ∧
           Forall (λ rf, ¬ ((∃ a b, rf.2 = a +:+ bibnick +:+ b) ∧
                            (∃ a, rf.2 = a +:+ ".pdf"))) pre ∧
           (∃ a b, filename = a +:+ bibnick +:+ b) ∧
           (∃ a, filename = a +:+ ".pdf") ∧
           p = abspath (path_join root filename)
     | None =>
         Forall (λ rf, ¬ ((∃ a b, rf.2 = a +:+ bibnick +:+ b) ∧
                          (∃ a, rf.2 = a +:+ ".pdf"))) (walk_files walk)
     end) ∧
  find_pdf_from_bibnick abspath "Smith"
    [("/refs", ["notes.txt"; "[Smith2020]paper.pdf"])] =
    Some (abspath "/refs/[Smith2020]paper.pdf") ∧
  filename_to_bibnick "[Smith2020]paper.pdf" = "Smith2020" ∧
  filename_to_bibnick "[Smith2020]paper.pdf" ≠ "Smith".
Proof.
  assert (∀ bibnick f, pdf_matches bibnick f = false →
            ¬ ((∃ a b, f = a +:+ bibnick +:+ b) ∧ (∃ a, f = a +:+ ".pdf")))
    as Hno.
  { intros bibnick f Hm [Hc He]. apply contains_spec in Hc.
    apply endswith_spec in He. unfold pdf_matches in Hm. by rewrite Hc, He in Hm. }
  split; [|by split].
  intros bibnick walk.
  pose proof (find_pdf_from_bibnick_spec abspath bibnick walk) as H.
  destruct (find_pdf_from_bibnick abspath bibnick walk) as [p|].
  - destruct H as (pre & root & f & post & Hw & Hpre & Hf & ->).
    apply andb_true_iff in Hf as [Hc He].
    apply contains_spec in Hc. apply endswith_spec in He.
    exists pre, root, f, post. split; [done|]. split; [|done].
    eapply Forall_impl; [done|]. intros rf. apply Hno.
  - eapply Forall_impl; [done|]. intros rf. apply Hno.
Qed.

(** ** The citation scanner *)

Example latex_cites_ex :
  latex_cites [("p", [("a.tex", ln "x \cite{ a , b}\fullcite{c} \cite{" +:+ ln "}");
                      (".b.tex", "\cite{h}"); ("c.txt", "\cite{t}")])] =
  ({["a"; "b"; "c"]}, [empty_citation_warning]).
Proof. vm_compute. reflexivity. Qed.

Lemma lazy_brace_shortens (r g rest : string) :
  lazy_brace r = Some (g, rest) → String.length rest < String.length r.
Proof.
  revert g. induction r as [|c r IH]; intros g; simpl; [done|].
  destruct (ascii_eqb c "}"); [intros [= <- <-]; lia|].
  destruct (ascii_eqb c nl); [done|].
  destruct (lazy_brace r) as [[g' rest']|]; simpl; [|done].
  intros [= <- <-]. specialize (IH g' eq_refl). lia.
Qed.

Lemma strip_prefix_shortens (p s r : string) :
  strip_prefix p s = Some r → String.length r ≤ String.length s.
Proof.
  revert s. induction p as [|a p IH]; intros s.
  - destruct s; intros [= <-]; done.
  - destruct s as [|b s]; simpl; [done|].
    destruct (ascii_eqb a b); [|done]. intros H%IH. lia.
Qed.

Lemma match_cmd_shortens (cmd s g1 g2 rest : string) :
  match_cmd cmd s = Some (g1, g2, rest) →
  String.length rest < String.length s.
Proof.
  unfold match_cmd. intros H.
  destruct (strip_prefix _ s) as [r|] eqn:H1; [|done].
  apply bind_Some in H as (r0 & [= <-] & H).
  apply bind_Some in H as (r' & H2 & H).
  apply bind_Some in H as ([g rest'] & H3 & [= <- <- <-]).
  apply strip_prefix_shortens in H1, H2. apply lazy_brace_shortens in H3. lia.
Qed.

Lemma match_citere_shortens (s g1 g2 rest : string) :
  match_citere s = Some (g1, g2, rest) →
  String.length rest < String.length s.
Proof.
  unfold match_citere. induction cites as [|cmd cmds IH]; simpl; [done|].
  destruct (match_cmd cmd s) as [[[h1 h2] r]|] eqn:Hm; [|done].
  intros [= <- <- <-]. by eapply match_cmd_shortens.
Qed.

Lemma findall_loop_fuel (n m : nat) (s : string) :
  String.length s < n → String.length s < m →
  findall_loop n s = findall_loop m s.
Proof.
  revert m s. induction n as [|n IH]; intros m s Hn Hm; [lia|].
  destruct m as [|m]; [lia|]. simpl.
  destruct (match_citere s) as [[[g1 g2] rest]|] eqn:Hmatch.
  - apply match_citere_shortens in Hmatch. f_equal. apply IH; lia.
  - destruct s as [|c s]; [done|]. simpl in Hn, Hm. apply IH; lia.
Qed.

(** The scan of [re.findall], without the bound. *)
Lemma findall_citere_eq (s : string) :
  findall_citere s =
  match match_citere s with
  | Some (g1, g2, rest) => (g1, g2) :: findall_citere rest
  | None =>
      match s with
      | "" => []
      | String _ s' => findall_citere s'
      end
  end.
Proof.
  unfold findall_citere at 1. simpl.
  destruct (match_citere s) as [[[g1 g2] rest]|] eqn:Hmatch.
  - apply match_citere_shortens in Hmatch. f_equal.
    apply findall_loop_fuel; lia.
  - destruct s as [|c s]; [done|]. apply findall_loop_fuel; simpl; lia.
Qed.

Lemma match_cmd_backslash (cmd : string) (c : ascii) (s : string) :
  ascii_eqb c "\" = false → match_cmd cmd (String c s) = None.
Proof.
  intros Hc. unfold match_cmd. rewrite app_cons_s, app_nil_l_s. simpl.
  unfold ascii_eqb in *. apply bool_decide_eq_false in Hc.
  by rewrite bool_decide_eq_false_2 by congruence.
Qed.

Lemma findall_citere_skip (pre s : string) :
  no_backslash pre = true → findall_citere (pre +:+ s) = findall_citere s.
Proof.
  induction pre as [|c pre IH]; [done|]. simpl.
  intros [Hc Hpre]%andb_true_iff. apply negb_true_iff in Hc.
  rewrite app_cons_s, findall_citere_eq.
  unfold match_citere, cites. simpl. rewrite !match_cmd_backslash by done.
  by apply IH.
Qed.

Lemma findall_citere_empty_cite (post : string) :
  findall_citere ("\cite{}" +:+ post) = ("\cite", "") :: findall_citere post.
Proof. by rewrite findall_citere_eq. Qed.

Lemma findall_citere_empty_fullcite (post : string) :
  findall_citere ("\fullcite{}" +:+ post) =
  ("\fullcite", "") :: findall_citere post.
Proof. by rewrite findall_citere_eq. Qed.

(** The keys and the warnings a list of matches adds to the state. *)
Lemma scan_matches_spec (ms : list (string * string)) (st : scan_state) :
  foldl scan_match st ms =
  (st.1 ∪ ⋃ ((λ x, arg_keys x.2) <$> filter (λ x, x.2 ≠ "") ms),
   st.2 ++ replicate (length (filter (λ x, x.2 = "") ms))
             empty_citation_warning).
Proof.
  revert st. induction ms as [|x ms IH]; intros [c w]; simpl.
  - rewrite app_nil_r. f_equal. set_solver.
  - rewrite IH. unfold scan_match. case_bool_decide as Hx; simpl.
    + rewrite filter_cons_True by done.
      rewrite (filter_cons_False (λ x, x.2 = "")) by done.
      simpl. f_equal. set_solver.
    + rewrite filter_cons_False by (intros ?; done).
      rewrite (filter_cons_True (λ x, x.2 = "")) by done.
      simpl. by rewrite <- app_assoc.
Qed.

Lemma scan_files_spec (files : list (string * string)) (st : scan_state) :
  foldl (λ st pc, scan_file st pc.2) st files =
  foldl scan_match st (pc ← files; findall_citere (dewrap pc.2)).
Proof.
  revert st. induction files as [|pc files IH]; intros st; [done|].
  simpl. rewrite IH. unfold scan_file. by rewrite foldl_app.
Qed.

(** What [latex_cites] returns and the warnings it issues, from the
    citation commands found in the project. *)
Lemma latex_cites_spec (project : project_walk) :
  latex_cites project =
  (⋃ ((λ x, arg_keys x.2) <$> filter (λ x, x.2 ≠ "") (all_matches project)),
   replicate (length (filter (λ x, x.2 = "") (all_matches project)))
     empty_citation_warning).
Proof.
  unfold latex_cites, all_matches.
  rewrite scan_files_spec, scan_matches_spec. simpl. f_equal. set_solver.
Qed.

Lemma latex_cites_key (project : project_walk) (key : string) :
  key ∈ (latex_cites project).1 ↔
  ∃ x, x ∈ all_matches project ∧ x.2 ≠ "" ∧
       key ∈ strip <$> split ","%char x.2.
Proof.
  rewrite latex_cites_spec. simpl. rewrite elem_of_union_list. split.
  - intros (X & HX & Hkey). apply list_elem_of_fmap in HX as (x & -> & Hx).
    apply list_elem_of_filter in Hx as [Hne Hx]. exists x.
    split; [done|]. split; [done|]. unfold arg_keys in Hkey.
    by apply elem_of_list_to_set in Hkey.
  - intros (x & Hx & Hne & Hkey). exists (arg_keys x.2). split.
    + apply list_elem_of_fmap. exists x. split; [done|].
      by apply list_elem_of_filter.
    + unfold arg_keys. by apply elem_of_list_to_set.
Qed.

Lemma split_app_sep (c : ascii) (a b : string) :
  split c (a +:+ String c b) = split c a ++ split c b.
Proof.
  induction a as [|x a IH].
  - rewrite app_nil_l_s. simpl. unfold ascii_eqb.
    by rewrite bool_decide_eq_true_2.
  - rewrite app_cons_s. simpl. rewrite IH.
    destruct (ascii_eqb x c); [done|].
    pose proof (split_nonempty c a). by destruct (split c a).
Qed.

(** ** Lookups *)

Lemma lookup_many_found (entry : gmap string string) (what : list string)
    (r : gmap string string) (w : string) :
  foldl (λ result w,
           match entry !! w with
           | Some v => <[w := sanitize v]> result
           | None => result
           end) r what !! w =
  if bool_decide (w ∈ what) then
    match entry !! w with Some v => Some (sanitize v) | None => r !! w end
  else r !! w.
Proof.
  revert r. induction what as [|w' what IH]; intros r; simpl; [done|].
  rewrite IH. destruct (decide (w = w')) as [->|Hne].
  - rewrite (bool_decide_eq_true_2 (w' ∈ w' :: what)) by set_solver.
    destruct (entry !! w') as [v|] eqn:He.
    + case_bool_decide; [done|]. by rewrite lookup_insert_eq.
    + by case_bool_decide.
  - assert (match entry !! w' with
            | Some v => <[w' := sanitize v]> r
            | None => r
            end !! w = r !! w) as ->.
    { destruct (entry !! w'); [by rewrite lookup_insert_ne|done]. }
    destruct (decide (w ∈ what)).
    + rewrite !bool_decide_eq_true_2; [done|set_solver|done].
    + rewrite !bool_decide_eq_false_2; [done|set_solver|done].
Qed.

Lemma lookup_many_default (what : list string) (r : gmap string string)
    (w : string) :
  foldl (λ result w,
           match result !! w with
           | None => <[w := ""]> result
           | Some _ => result
           end) r what !! w =
  match r !! w with
  | Some v => Some v
  | None => if bool_decide (w ∈ what) then Some "" else None
  end.
Proof.
  revert r. induction what as [|w' what IH]; intros r; simpl.
  - by destruct (r !! w).
  - rewrite IH. destruct (r !! w') as [v'|] eqn:Hw'.
    + destruct (r !! w) as [v|] eqn:Hw; [done|].
      assert (w ≠ w') by congruence.
      destruct (decide (w ∈ what)).
      * rewrite !bool_decide_eq_true_2; [done|set_solver|done].
      * rewrite !bool_decide_eq_false_2; [done|set_solver|done].
    + destruct (decide (w = w')) as [->|Hne].
      * rewrite lookup_insert_eq, Hw'.
        by rewrite (bool_decide_eq_true_2 (w' ∈ w' :: what)) by set_solver.
      * rewrite lookup_insert_ne by done. destruct (r !! w); [done|].
        destruct (decide (w ∈ what)).
        -- rewrite !bool_decide_eq_true_2; [done|set_solver|done].
        -- rewrite !bool_decide_eq_false_2; [done|set_solver|done].
Qed.

(** C6.  When the file is read, [bib_lookup] returns the sanitized value
    of the field, and no value when the entry or the field is absent;
    [bib_lookup_many] returns a dictionary that has a value for every
    requested field, the sanitized value of the field or the empty string
    when the entry or the field is absent. *)
Theorem bib_lookup_absent_field
    (bibtexparser_load : string → result (option BibDatabase))
    (bib bibnick : string) (bib_database : option BibDatabase)
    (what : string) (whats : list string) :
  bibtexparser_load bib = Ok bib_database →
  bib_lookup bibtexparser_load bib bibnick what =
    Ok (sanitize <$> field_of bib_database bibnick what) ∧
  (field_of bib_database bibnick what = None →
   bib_lookup bibtexparser_load bib bibnick what = Ok None) ∧
  ∃ result,
    bib_lookup_many bibtexparser_load bib bibnick whats = Ok result ∧
    ∀ w, w ∈ whats →
      result !! w =
        Some (default "" (sanitize <$> field_of bib_database bibnick w)) ∧
      (field_of bib_database bibnick w = None → result !! w = Some "").
Proof.
  intros Hload.
  assert (bib_lookup bibtexparser_load bib bibnick what =
          Ok (sanitize <$> field_of bib_database bibnick what)) as Hone.
  { unfold bib_lookup, field_of. rewrite Hload. simpl.
    destruct bib_database as [db|]; simpl; [|done].
    destruct (db_entries_dict db !! bibnick) as [entry|]; simpl; [|done].
    by destruct (entry !! what). }
  split; [done|]. split; [by intros Hnone; rewrite Hone, Hnone|].
  unfold bib_lookup_many. rewrite Hload. simpl. eexists. split; [done|].
  intros w Hw.
  rewrite lookup_many_default.
  unfold field_of.
  destruct bib_database as [db|]; simpl.
  - destruct (db_entries_dict db !! bibnick) as [entry|]; simpl.
    + rewrite lookup_many_found, lookup_empty.
      rewrite !bool_decide_eq_true_2 by done.
      by destruct (entry !! w).
    + rewrite lookup_empty, bool_decide_eq_true_2 by done. done.
  - rewrite lookup_empty, bool_decide_eq_true_2 by done. done.
Qed.

Lemma bib_lookup_absent_field_witness :
  bib_lookup example_load "" "k" "year" =
    Ok (sanitize <$> field_of
          (Some {| db_entries := [example_entry];
                   db_entries_dict := {[ "k" := example_entry ]} |})
          "k" "year") ∧
  (field_of (Some {| db_entries := [example_entry];
                     db_entries_dict := {[ "k" := example_entry ]} |})
     "k" "year" = None →
   bib_lookup example_load "" "k" "year" = Ok None) ∧
  ∃ result,
    bib_lookup_many example_load "" "k" ["title"; "year"] = Ok result ∧
    ∀ w, w ∈ ["title"; "year"] →
      result !! w =
        Some (default ""
                (sanitize <$> field_of
                   (Some {| db_entries := [example_entry];
                            db_entries_dict := {[ "k" := example_entry ]} |})
                   "k" w)) ∧
      (field_of (Some {| db_entries := [example_entry];
                         db_entries_dict := {[ "k" := example_entry ]} |})
         "k" w = None → result !! w = Some "").
Proof.
  refine (bib_lookup_absent_field example_load "" "k"
            (Some {| db_entries := [example_entry];
                     db_entries_dict := {[ "k" := example_entry ]} |})
            "year" ["title"; "year"] _).
  reflexivity.
Defined.

Example bib_lookup_ex :
  bib_lookup example_load "" "k" "year" = Ok None ∧
  bib_lookup example_load "" "k" "title" = Ok (Some "Title") ∧
  bib_lookup_many example_load "" "k" ["title"; "year"] =
    Ok {[ "title" := "Title"; "year" := "" ]}.
Proof. split; [|split]; vm_compute; reflexivity. Qed.

(** ** A run of [make] *)

Example example_run1_ok :
  make spec_load example_project example_parent "" = Ok example_run1.
Proof. vm_compute. reflexivity. Qed.

(** * Further properties *)

(** ** The splitter: failure, the keys it adds, the text it returns *)

Lemma braceless_drop_body (rest : list string) :
  existsb braceless_entry (drop_while in_body rest) =
  existsb braceless_entry rest.
Proof.
  induction rest as [|l rest IH]; [done|]. simpl.
  destruct (in_body l) eqn:Hb; [|done]. rewrite IH.
  unfold braceless_entry at 2.
  destruct (starts_entry l) eqn:Hs; [|done].
  apply starts_entry_not_body in Hs. congruence.
Qed.

Lemma bib_strip_on_outcome (n : nat) (ls : list string) (st : strip_state) :
  length ls < n → file_lines ls →
  match bib_strip_on n ls st with
  | Ok _ => existsb braceless_entry ls = false
  | Raise e => e = IndexError ∧ existsb braceless_entry ls = true
  | Timeout => False
  end.
Proof.
  revert ls st. induction n as [|n IH]; intros ls st Hn Hf; [lia|].
  destruct ls as [|line rest]; [done|]. simpl in Hn.
  rewrite bib_strip_on_step by lia.
  case_bool_decide as Hline.
  { subst. apply file_lines_nonempty in Hf. by inversion Hf. }
  pose proof (file_lines_tail _ _ Hf) as Hf'.
  pose proof (drop_while_length in_body rest) as Hlen.
  simpl existsb. unfold is_required_entry, braceless_entry at 1 2 3.
  destruct (starts_entry line) eqn:Hs; simpl.
  - pose proof (entry_key_terminates line) as Hterm.
    destruct (entry_key line) as [k|e|] eqn:Hk; simpl; [| |done].
    + case_bool_decide.
      * specialize (IH (drop_while in_body rest) (take_block line k rest st)).
        rewrite braceless_drop_body in IH. apply IH; [lia|].
        by apply file_lines_drop_while.
      * apply IH; [lia|done].
    + split; [|done]. by apply entry_key_raises in Hk.
  - apply IH; [lia|done].
Qed.

(** X1.  Whatever keys are required, [bib_strip] raises [IndexError] when
    some line of the parent begins with [@] and has no brace, and returns
    otherwise. *)
Theorem bib_strip_fails_on_braceless (parent_bib : string)
    (required : gset string) :
  if existsb braceless_entry (open parent_bib)
  then bib_strip parent_bib required = Raise IndexError
  else ∃ child added missing,
         bib_strip parent_bib required = Ok (child, added, missing).
Proof.
  pose proof (bib_strip_on_outcome (S (length (open parent_bib)))
                (open parent_bib) (StripState required ∅ "")) as H.
  unfold bib_strip.
  rewrite (bib_strip_from_on (S (length (open parent_bib)))) by lia.
  destruct (bib_strip_on _ _ _) as [st|e|].
  - rewrite H; [|lia|apply readlines_file_lines]. simpl. by eexists _, _, _.
  - destruct H as [-> ->]; [lia|apply readlines_file_lines|done].
  - destruct H; [lia|apply readlines_file_lines].
Qed.

(** A key is added only if it was required and a pending line starts its
    entry. *)
Lemma bib_strip_on_added (k : string) (n : nat) (ls : list string)
    (st st' : strip_state) :
  length ls < n →
  bib_strip_on n ls st = Ok st' →
  k ∈ s_added_entries st' →
  k ∈ s_added_entries st ∨ (k ∈ s_entries st ∧ has_entry k ls = true).
Proof.
  revert ls st. induction n as [|n IH]; intros ls st Hn Hrun Hin; [lia|].
  destruct ls as [|line rest]; [injection Hrun as <-; by left|].
  simpl in Hn. rewrite bib_strip_on_step in Hrun by lia.
  case_bool_decide as Hline; [injection Hrun as <-; by left|].
  destruct (is_required_entry line (s_entries st)) as [[]| |] eqn:Hreq;
    simpl in Hrun; try done.
  - apply is_required_entry_true in Hreq as (Hs & k' & Hk & Hin').
    rewrite Hk in Hrun. simpl in Hrun.
    pose proof (drop_while_length in_body rest).
    apply IH in Hrun as [Ha|[He Hh]]; [| |lia|done].
    + simpl in Ha. apply elem_of_union in Ha as [Ha|Ha]; [by left|].
      apply elem_of_singleton in Ha as ->. right. split; [done|].
      simpl. by rewrite (is_entry_for_key k' k' line), bool_decide_eq_true_2.
    + right. simpl in He. rewrite has_entry_drop_body in Hh.
      split; [set_solver|]. simpl. by rewrite Hh, orb_true_r.
  - apply IH in Hrun as [Ha|[He Hh]]; [by left| |lia|done].
    right. split; [done|]. simpl. by rewrite Hh, orb_true_r.
Qed.

(** X2.  When [bib_strip] returns, the added keys are the required keys
    for which some line of the parent starts an entry, and the missing keys
    are the required keys for which none does. *)
Theorem bib_strip_added_iff (parent_bib : string) (required : gset string)
    (child : string) (added missing : gset string) (k : string) :
  bib_strip parent_bib required = Ok (child, added, missing) →
  (k ∈ added ↔ k ∈ required ∧ has_entry k (open parent_bib) = true) ∧
  (k ∈ missing ↔ k ∈ required ∧ has_entry k (open parent_bib) = false).
Proof.
  intros Hrun. apply bib_strip_returns in Hrun.
  pose proof (readlines_file_lines parent_bib) as Hf.
  fold (open parent_bib) in Hf.
  pose proof (bib_strip_on_partition _ _ _ _ (Nat.lt_succ_diag_r _) Hrun)
    as [Hun Hdj]; [apply disjoint_empty_r|]. simpl in Hun, Hdj.
  assert (k ∈ missing → k ∈ required ∧ has_entry k (open parent_bib) = false)
    as Hmiss.
  { intros Hin.
    by apply (bib_strip_on_missing k) in Hrun; [|lia|done|done]. }
  assert (k ∈ added → k ∈ required ∧ has_entry k (open parent_bib) = true)
    as Hadd.
  { intros Hin.
    apply (bib_strip_on_added k) in Hrun as [Ha|Ha]; [|done|lia|done].
    simpl in Ha. set_solver. }
  split; split; [done| |done|].
  - intros [Hr Hh]. assert (k ∈ missing ∪ added) as Hk by set_solver.
    apply elem_of_union in Hk as [Hk|Hk]; [|done].
    apply Hmiss in Hk as [_ Hk]. congruence.
  - intros [Hr Hh]. assert (k ∈ missing ∪ added) as Hk by set_solver.
    apply elem_of_union in Hk as [Hk|Hk]; [done|].
    apply Hadd in Hk as [_ Hk]. congruence.
Qed.

Lemma bib_strip_added_iff_witness :
  ("a" ∈ ({["a"]} : gset string) ↔
   "a" ∈ ({["a"; "x"]} : gset string) ∧
   has_entry "a" (open example_parent) = true) ∧
  ("a" ∈ ({["x"]} : gset string) ↔
   "a" ∈ ({["a"; "x"]} : gset string) ∧
   has_entry "a" (open example_parent) = false).
Proof.
  refine (bib_strip_added_iff example_parent {["a"; "x"]}
            (ln "@book{a," +:+ ln "  year = 1" +:+ ln "}" +:+ ln "")
            {["a"]} {["x"]} "a" _).
  vm_compute. reflexivity.
Defined.

Lemma app_empty_s (s t : string) : s +:+ t = "" → s = "" ∧ t = "".
Proof. destruct s; [done|]. by rewrite app_cons_s. Qed.

Lemma bib_strip_on_text_empty (n : nat) (ls : list string)
    (st st' : strip_state) :
  length ls < n →
  bib_strip_on n ls st = Ok st' →
  (s_child_bib st = "" ↔ s_added_entries st = ∅) →
  (s_child_bib st' = "" ↔ s_added_entries st' = ∅).
Proof.
  revert ls st. induction n as [|n IH]; intros ls st Hn Hrun Hinv; [lia|].
  destruct ls as [|line rest]; [by injection Hrun as <-|].
  simpl in Hn. rewrite bib_strip_on_step in Hrun by lia.
  case_bool_decide as Hline; [by injection Hrun as <-|].
  destruct (is_required_entry line (s_entries st)) as [[]| |] eqn:Hreq;
    simpl in Hrun; try done.
  - destruct (entry_key line) as [k| |]; simpl in Hrun; try done.
    pose proof (drop_while_length in_body rest).
    apply IH in Hrun; [done|lia|]. simpl. split.
    + intros [_ [Hl _]%app_empty_s]%app_empty_s. done.
    + intros He. exfalso. set_solver.
  - apply IH in Hrun; [done|lia|done].
Qed.

(** X3.  When [bib_strip] returns, the returned text is empty exactly when
    no key was added. *)
Theorem bib_strip_text_empty_iff (parent_bib : string)
    (required : gset string) (child : string) (added missing : gset string) :
  bib_strip parent_bib required = Ok (child, added, missing) →
  (child = "" ↔ added = ∅).
Proof.
  intros Hrun. apply bib_strip_returns in Hrun.
  apply bib_strip_on_text_empty in Hrun; [done|lia|]. by simpl.
Qed.

Lemma bib_strip_text_empty_iff_witness :
  (ln "@book{a," +:+ ln "  year = 1" +:+ ln "}" +:+ ln "" = "" ↔
   ({["a"]} : gset string) = ∅).
Proof.
  refine (bib_strip_text_empty_iff example_parent {["a"; "x"]}
            (ln "@book{a," +:+ ln "  year = 1" +:+ ln "}" +:+ ln "")
            {["a"]} {["x"]} _).
  vm_compute. reflexivity.
Defined.

Lemma join_lines_Forall (Q : string → Prop) (M : list string) :
  file_lines M →
  Q (String nl "") →
  Forall (λ l, Q l ∧ Q (l +:+ String nl "")) M →
  Forall Q (readlines (join M +:+ String nl "")).
Proof.
  intros Hf Hnl. induction Hf as [|l [Hl Hn]|l ls (b & -> & Hb) Hls IH].
  - intros _. by constructor.
  - intros [[_ HQ] _]%Forall_cons. simpl.
    rewrite app_nil_r_s, readlines_complete by done. by constructor.
  - intros [[HQ _] Hrest]%Forall_cons. simpl.
    rewrite app_assoc_s, readlines_app_closed, readlines_complete by done.
    constructor; [done|]. by apply IH.
Qed.

Lemma block_lines_kept (parent : list string) (line : string)
    (rest : list string) :
  starts_entry line = true → line ∈ parent → rest ⊆ parent →
  Forall (λ l, kept_line parent l ∧ kept_line parent (l +:+ String nl ""))
    (line :: filter (λ l, not_comment l = true) (take_while in_body rest)).
Proof.
  intros Hs Hline Hrest. constructor.
  - assert (first_char (strip line) ≠ Some "#"%char) as Hc.
    { apply andb_true_iff in Hs as [_ Hs]. apply bool_decide_eq_true in Hs.
      by rewrite Hs. }
    split; right; exists line; auto.
  - apply Forall_forall. intros l [Hc Hl]%list_elem_of_filter.
    assert (l ∈ rest) as Hin.
    { clear -Hl. induction rest as [|x rest IH]; simpl in Hl; [set_solver|].
      destruct (in_body x); set_solver. }
    apply bool_decide_eq_true in Hc.
    split; right; exists l; auto.
Qed.

Lemma drop_while_subseteq {A : Type} (p : A → bool) (l : list A) :
  drop_while p l ⊆ l.
Proof.
  induction l as [|x l IH]; simpl; [done|]. destruct (p x); set_solver.
Qed.

Lemma bib_strip_on_kept (parent : list string) (n : nat) (ls : list string)
    (st st' : strip_state) :
  length ls < n → file_lines ls → ls ⊆ parent →
  closed_text (s_child_bib st) →
  Forall (kept_line parent) (readlines (s_child_bib st)) →
  bib_strip_on n ls st = Ok st' →
  closed_text (s_child_bib st') ∧
  Forall (kept_line parent) (readlines (s_child_bib st')).
Proof.
  revert ls st. induction n as [|n IH]; intros ls st Hn Hf Hsub Hc Hk Hrun; [lia|].
  destruct ls as [|line rest]; [by injection Hrun as <-|].
  simpl in Hn. rewrite bib_strip_on_step in Hrun by lia.
  case_bool_decide as Hline; [by injection Hrun as <-|].
  pose proof (file_lines_tail _ _ Hf) as Hf'.
  destruct (is_required_entry line (s_entries st)) as [[]| |] eqn:Hreq;
    simpl in Hrun; try done.
  - apply is_required_entry_true in Hreq as (Hs & k & Hkey & Hin).
    rewrite Hkey in Hrun. simpl in Hrun.
    pose proof (drop_while_length in_body rest).
    pose proof (drop_while_subseteq in_body rest).
    apply IH in Hrun; [done | lia | by apply file_lines_drop_while
                       | set_solver | |].
    + simpl. rewrite <- !app_assoc_s. apply closed_text_snoc.
    + simpl. rewrite readlines_app by done. apply Forall_app. split; [done|].
      unfold body_text. rewrite <- app_assoc_s.
      change (line +:+ join ?M) with (join (line :: M)).
      apply join_lines_Forall.
      * by apply block_file_lines.
      * by left.
      * apply block_lines_kept; set_solver.
  - apply IH in Hrun; [done | lia | done | set_solver | done..].
Qed.

(** X4.  When [bib_strip] returns, the returned text is empty or ends with
    a line break, and each of its lines is a blank line or a line of the
    parent, given a final line break if it had none, that does not begin
    with [#]. *)
Theorem bib_strip_text_lines (parent_bib : string) (required : gset string)
    (child : string) (added missing : gset string) :
  bib_strip parent_bib required = Ok (child, added, missing) →
  closed_text child ∧
  Forall (kept_line (open parent_bib)) (readlines child).
Proof.
  intros Hrun. apply bib_strip_returns in Hrun.
  apply (bib_strip_on_kept (open parent_bib)) in Hrun; [done|lia|..].
  - apply readlines_file_lines.
  - done.
  - by left.
  - constructor.
Qed.

Lemma bib_strip_text_lines_witness :
  closed_text (ln "@book{a," +:+ ln "  year = 1" +:+ ln "}" +:+ ln "") ∧
  Forall (kept_line (open example_parent))
    (readlines (ln "@book{a," +:+ ln "  year = 1" +:+ ln "}" +:+ ln "")).
Proof.
  refine (bib_strip_text_lines example_parent {["a"; "x"]}
            (ln "@book{a," +:+ ln "  year = 1" +:+ ln "}" +:+ ln "")
            {["a"]} {["x"]} _).
  vm_compute. reflexivity.
Defined.

(** ** The scanner: order of the files, shape of the keys, line breaks *)

(** X5.  The set [latex_cites] returns and the warnings it issues do not
    depend on the order in which the files of the project are read. *)
Theorem latex_cites_order (project1 project2 : project_walk) :
  tex_files project1 ≡ₚ tex_files project2 →
  latex_cites project1 = latex_cites project2.
Proof.
  intros Hperm. rewrite !latex_cites_spec.
  assert (all_matches project1 ≡ₚ all_matches project2) as Hm.
  { unfold all_matches. by rewrite Hperm. }
  f_equal.
  - by rewrite Hm.
  - f_equal. by rewrite Hm.
Qed.

Lemma latex_cites_order_witness :
  latex_cites [("p", [("a.tex", "\cite{a}"); ("b.tex", "\cite{}")]);
               ("p/q", [("c.tex", "\fullcite{c}")])] =
  latex_cites [("p/q", [("c.tex", "\fullcite{c}")]);
               ("p", [("b.tex", "\cite{}"); ("a.tex", "\cite{a}")])].
Proof.
  refine (latex_cites_order
            [("p", [("a.tex", "\cite{a}"); ("b.tex", "\cite{}")]);
             ("p/q", [("c.tex", "\fullcite{c}")])]
            [("p/q", [("c.tex", "\fullcite{c}")]);
             ("p", [("b.tex", "\cite{}"); ("a.tex", "\cite{a}")])] _).
  vm_compute.
  eapply perm_trans; [apply perm_swap|].
  eapply perm_trans; [apply perm_skip, perm_swap|].
  apply perm_swap.
Defined.

Lemma lstrip_no_char (c : ascii) (s : string) :
  no_char c s = true → no_char c (lstrip s) = true.
Proof.
  induction s as [|a s IH]; [done|]. simpl.
  intros [Ha Hs]%andb_true_iff. destruct (is_space a); [by apply IH|].
  simpl. by rewrite Ha, Hs.
Qed.

Lemma rstrip_no_char (c : ascii) (s : string) :
  no_char c s = true → no_char c (rstrip s) = true.
Proof.
  induction s as [|a s IH]; [done|]. simpl.
  intros [Ha Hs]%andb_true_iff. specialize (IH Hs).
  destruct (rstrip s) eqn:Hr.
  - destruct (is_space a); [done|]. simpl. by rewrite Ha.
  - simpl in *. by rewrite Ha, IH.
Qed.

Lemma strip_no_char (c : ascii) (s : string) :
  no_char c s = true → no_char c (strip s) = true.
Proof. intros H. by apply rstrip_no_char, lstrip_no_char. Qed.

Lemma rstrip_cons (a : ascii) (s : string) :
  is_space a = false → rstrip (String a s) = String a (rstrip s).
Proof. intros Ha. simpl. rewrite Ha. by destruct (rstrip s). Qed.

Lemma rstrip_idemp (s : string) : rstrip (rstrip s) = rstrip s.
Proof.
  induction s as [|a s IH]; [done|]. simpl.
  destruct (rstrip s) as [|b r] eqn:Hr.
  - destruct (is_space a) eqn:Ha; [done|]. simpl. by rewrite Ha.
  - change (rstrip (String a (String b r)))
      with (match rstrip (String b r) with
            | "" => if is_space a then "" else String a ""
            | r' => String a r'
            end).
    by rewrite IH.
Qed.

Lemma lstrip_head (s : string) :
  match lstrip s with
  | "" => True
  | String a _ => is_space a = false
  end.
Proof.
  induction s as [|a s IH]; [done|]. simpl.
  destruct (is_space a) eqn:Ha; [done|]. done.
Qed.

(** Trimming a trimmed string changes nothing. *)
Lemma strip_idemp (s : string) : strip (strip s) = strip s.
Proof.
  unfold strip. pose proof (lstrip_head s) as Hh.
  destruct (lstrip s) as [|a t]; [done|].
  rewrite rstrip_cons by done. simpl lstrip. rewrite Hh.
  rewrite rstrip_cons by done. by rewrite rstrip_idemp.
Qed.

Lemma split_pieces (c d : ascii) (s p : string) :
  p ∈ split c s →
  no_char c p = true ∧ (no_char d s = true → no_char d p = true).
Proof.
  revert p. induction s as [|a s IH]; intros p; simpl.
  - intros ->%list_elem_of_singleton. done.
  - destruct (ascii_eqb a c) eqn:Ha.
    + intros [->|Hp]%elem_of_cons; [done|].
      destruct (IH p Hp) as [H1 H2]. split; [done|].
      intros [_ Hs]%andb_true_iff. auto.
    + pose proof (split_nonempty c s) as Hne.
      destruct (split c s) as [|q qs]; [done|].
      intros [->|Hp]%elem_of_cons.
      * destruct (IH q) as [H1 H2]; [by left|]. simpl. rewrite Ha. simpl.
        split; [done|]. intros [Hd Hs]%andb_true_iff. rewrite Hd. auto.
      * destruct (IH p) as [H1 H2]; [by right|]. split; [done|].
        intros [_ Hs]%andb_true_iff. auto.
Qed.

Lemma lazy_brace_group (r g rest : string) :
  lazy_brace r = Some (g, rest) →
  no_char "}" g = true ∧ no_char nl g = true.
Proof.
  revert g. induction r as [|c r IH]; intros g; simpl; [done|].
  destruct (ascii_eqb c "}") eqn:Hb; [by intros [= <- <-]|].
  destruct (ascii_eqb c nl) eqn:Hn; [done|].
  destruct (lazy_brace r) as [[g' rest']|]; simpl; [|done].
  intros [= <- <-]. destruct (IH g' eq_refl) as [H1 H2].
  simpl. by rewrite Hb, Hn, H1, H2.
Qed.

Lemma match_citere_group (s g1 g2 rest : string) :
  match_citere s = Some (g1, g2, rest) →
  no_char "}" g2 = true ∧ no_char nl g2 = true.
Proof.
  unfold match_citere. induction cites as [|cmd cmds IH]; simpl; [done|].
  destruct (match_cmd cmd s) as [[[h1 h2] r]|] eqn:Hm; [|done].
  intros [= <- <- <-]. unfold match_cmd in Hm.
  apply bind_Some in Hm as (r0 & _ & Hm).
  apply bind_Some in Hm as (r1 & _ & Hm).
  apply bind_Some in Hm as ([g rest'] & Hl & [= <- <- <-]).
  by eapply lazy_brace_group.
Qed.

Lemma findall_loop_groups (n : nat) (s : string) (x : string * string) :
  x ∈ findall_loop n s →
  no_char "}" x.2 = true ∧ no_char nl x.2 = true.
Proof.
  revert s. induction n as [|n IH]; intros s; simpl; [set_solver|].
  destruct (match_citere s) as [[[g1 g2] rest]|] eqn:Hm.
  - intros [->|Hx]%elem_of_cons; [by eapply match_citere_group|by eapply IH].
  - destruct s as [|c s]; [set_solver|]. apply IH.
Qed.

(** X6.  Every key [latex_cites] returns is trimmed of white space and
    has no comma, no closing brace and no line break in it. *)
Theorem latex_cites_keys_clean (project : project_walk) (key : string) :
  key ∈ (latex_cites project).1 →
  strip key = key ∧ no_char "," key = true ∧
  no_char "}" key = true ∧ no_char nl key = true.
Proof.
  intros (x & Hx & _ & Hkey)%latex_cites_key.
  apply list_elem_of_fmap in Hkey as (piece & -> & Hp).
  unfold all_matches in Hx. apply list_elem_of_bind in Hx as (pc & Hx & _).
  apply findall_loop_groups in Hx as [Hb Hn].
  destruct (split_pieces "," "}" x.2 piece Hp) as [Hc H1].
  destruct (split_pieces "," nl x.2 piece Hp) as [_ H2].
  split; [apply strip_idemp|].
  repeat split; apply strip_no_char; auto.
Qed.

Lemma latex_cites_keys_clean_witness :
  strip "b" = "b" ∧ no_char "," "b" = true ∧
  no_char "}" "b" = true ∧ no_char nl "b" = true.
Proof.
  refine (latex_cites_keys_clean
            [("p", [("a.tex", ln "\cite{a ," +:+ ln "   b }")])] "b" _).
  vm_compute. reflexivity.
Defined.

Lemma readlines_ln_lines (ls : list string) :
  Forall (λ l, no_nl l = true) ls → readlines (join (ln <$> ls)) = ln <$> ls.
Proof.
  induction 1 as [|l ls Hl Hls IH]; [done|]. rewrite fmap_cons.
  change (join (ln l :: (ln <$> ls))) with (ln l +:+ join (ln <$> ls)).
  unfold ln at 1.
  rewrite readlines_app_closed, readlines_complete by done. by rewrite IH.
Qed.

(** X7.  For a file whose lines all end with a line break, the text the
    scanner searches is the lines joined after each is trimmed: the line
    breaks and the white space around them are gone. *)
Theorem dewrap_lines (ls : list string) :
  Forall (λ l, no_nl l = true) ls →
  dewrap (join (ln <$> ls)) = join (strip <$> ls).
Proof.
  intros Hls. unfold dewrap. rewrite readlines_ln_lines by done.
  f_equal. rewrite <- list_fmap_compose. apply list_fmap_ext.
  intros i l _. simpl. unfold ln. apply strip_app_nl.
Qed.

Lemma dewrap_lines_witness :
  dewrap (join (ln <$> ["See \cite{a,"; "   b}  "])) =
  join (strip <$> ["See \cite{a,"; "   b}  "]).
Proof.
  refine (dewrap_lines ["See \cite{a,"; "   b}  "] _).
  repeat constructor.
Defined.

(** ** Reports: order of the items, empty reports *)

Lemma sorted_Permutation (l1 l2 : list string) :
  l1 ≡ₚ l2 → sorted l1 = sorted l2.
Proof.
  intros Hp. unfold sorted. apply (Sorted_unique String.le).
  - apply Sorted_merge_sort; apply _.
  - apply Sorted_merge_sort; apply _.
  - by rewrite !merge_sort_Permutation.
Qed.

(** X8.  The report does not depend on the order in which the items are
    given, as when Python iterates over a set. *)
Theorem printer_order (things1 things2 : list string) (msg : string) :
  things1 ≡ₚ things2 → _printer things1 msg = _printer things2 msg.
Proof.
  intros Hp. unfold _printer.
  rewrite (Permutation_length Hp), (sorted_Permutation _ _ Hp). done.
Qed.

Lemma printer_order_witness :
  _printer ["b"; "c"; "a"] "Refs" = _printer ["a"; "b"; "c"] "Refs".
Proof.
  refine (printer_order ["b"; "c"; "a"] ["a"; "b"; "c"] "Refs" _).
  eapply perm_trans; [apply perm_skip, perm_swap|]. apply perm_swap.
Defined.

Lemma printer_empty_inv (things : list string) (msg : string) :
  _printer things msg = "" → things = [].
Proof.
  unfold _printer. destruct things as [|x l]; [done|].
  simpl length. simpl Nat.ltb. cbv iota. rewrite printer_loop_spec.
  intros [[[_ [_ H]%app_empty_s]%app_empty_s _]%app_empty_s _]%app_empty_s.
  done.
Qed.

(** X9.  The report is the empty string only for no items at all: with
    items there is a header line and an underline even when the header and
    every item are empty.  For a set, the report is empty exactly when the
    set is. *)
Theorem printer_empty_iff (things : list string) (set : gset string)
    (msg : string) :
  (_printer things msg = "" ↔ things = []) ∧
  (_printer (elements set) msg = "" ↔ set = ∅).
Proof.
  split; split.
  - apply printer_empty_inv.
  - by intros ->.
  - intros H%printer_empty_inv. by apply elements_empty_inv, leibniz_equiv in H.
  - intros ->. by rewrite elements_empty.
Qed.

(** ** [make]: what it prints, and where the cited keys go *)

Section MakeMore.
Variable bibtexparser_load : string → result (option BibDatabase).

Lemma make_run_inv (project : project_walk) (parent child : string)
    (r : make_run) :
  make bibtexparser_load project parent child = Ok r →
  mk_cites r = (latex_cites project).1 ∧
  mk_warnings r = (latex_cites project).2 ∧
  bib_nicknames bibtexparser_load child = Ok (mk_local_refs r) ∧
  mk_required_refs r = mk_cites r ∖ mk_local_refs r ∧
  bib_strip parent (mk_required_refs r) =
    Ok (mk_append_string r, mk_added_refs r, mk_missing_refs r) ∧
  mk_child r = child +:+ mk_append_string r ∧
  mk_out r = _printer (elements (mk_added_refs r)) added_msg +:+
             _printer (elements (mk_missing_refs r)) missing_msg.
Proof.
  unfold make. destruct (latex_cites project) as [cites warnings].
  destruct (bib_nicknames bibtexparser_load child) as [local| |];
    simpl; try done.
  destruct (bib_strip parent (cites ∖ local)) as [[[txt added] missing]| |]
    eqn:Hstrip; simpl; try done.
  by intros [= <-].
Qed.

(** X10.  A run of [make] that returns prints the empty string exactly
    when no cited key is absent from the child, and appends nothing then. *)
Theorem make_prints_nothing_iff (project : project_walk)
    (parent child : string) (r : make_run) :
  make bibtexparser_load project parent child = Ok r →
  (mk_out r = "" ↔ mk_required_refs r = ∅) ∧
  (mk_required_refs r = ∅ → mk_child r = child).
Proof.
  intros (_ & _ & _ & _ & Hstrip & Hchild & Hout)%make_run_inv.
  pose proof (bib_strip_returns _ _ _ _ _ Hstrip) as Hloop.
  pose proof (bib_strip_on_partition _ _ _ _ (Nat.lt_succ_diag_r _) Hloop)
    as [Hun Hdj]; [apply disjoint_empty_r|]. simpl in Hun, Hdj.
  assert (mk_required_refs r = ∅ ↔
          mk_added_refs r = ∅ ∧ mk_missing_refs r = ∅) as Hreq by set_solver.
  split.
  - rewrite Hreq, Hout. split.
    + intros [H1%printer_empty_inv H2%printer_empty_inv]%app_empty_s.
      by apply elements_empty_inv, leibniz_equiv in H1, H2.
    + intros [-> ->]. by rewrite elements_empty.
  - intros [Hadd _]%Hreq. rewrite Hchild.
    apply bib_strip_on_text_empty in Hloop; [|lia|done]. simpl in Hloop.
    apply Hloop in Hadd. by rewrite Hadd, app_nil_r_s.
Qed.

(** X11.  After a run of [make] that returns, every cited key is of
    exactly one kind: it was in the child before, or it was added, or it
    is missing; and only cited keys are added or missing. *)
Theorem make_sorts_cited_keys (project : project_walk)
    (parent child : string) (r : make_run) (k : string) :
  make bibtexparser_load project parent child = Ok r →
  ((k ∈ mk_cites r) →
   ((k ∈ mk_local_refs r) ∧ (k ∉ mk_added_refs r) ∧ (k ∉ mk_missing_refs r)) ∨
   ((k ∉ mk_local_refs r) ∧ (k ∈ mk_added_refs r) ∧ (k ∉ mk_missing_refs r)) ∨
   ((k ∉ mk_local_refs r) ∧ (k ∉ mk_added_refs r) ∧ (k ∈ mk_missing_refs r))) ∧
  ((k ∈ mk_added_refs r ∪ mk_missing_refs r) →
   (k ∈ mk_cites r) ∧ (k ∉ mk_local_refs r)).
Proof.
  intros (_ & _ & _ & Hreq & Hstrip & _ & _)%make_run_inv.
  pose proof (bib_strip_returns _ _ _ _ _ Hstrip) as Hloop.
  pose proof (bib_strip_on_partition _ _ _ _ (Nat.lt_succ_diag_r _) Hloop)
    as [Hun Hdj]; [apply disjoint_empty_r|]. simpl in Hun, Hdj.
  rewrite Hreq in Hun. split.
  - intros Hk. destruct (decide ((k ∈ mk_local_refs r))) as [Hl|Hl].
    + left. set_solver.
    + right. assert ((k ∈ mk_missing_refs r ∪ mk_added_refs r)) as Hin
        by set_solver.
      apply elem_of_union in Hin as [Hin|Hin]; [right|left]; set_solver.
  - set_solver.
Qed.
End MakeMore.

Lemma make_prints_nothing_iff_witness :
  (mk_out example_run1 = "" ↔ mk_required_refs example_run1 = ∅) ∧
  (mk_required_refs example_run1 = ∅ → mk_child example_run1 = "").
Proof.
  refine (make_prints_nothing_iff spec_load example_project example_parent
            "" example_run1 _).
  vm_compute. reflexivity.
Defined.

Lemma make_sorts_cited_keys_witness :
  (("x" ∈ mk_cites example_run1) →
   (("x" ∈ mk_local_refs example_run1) ∧ ("x" ∉ mk_added_refs example_run1) ∧
    ("x" ∉ mk_missing_refs example_run1)) ∨
   (("x" ∉ mk_local_refs example_run1) ∧ ("x" ∈ mk_added_refs example_run1) ∧
    ("x" ∉ mk_missing_refs example_run1)) ∨
   (("x" ∉ mk_local_refs example_run1) ∧ ("x" ∉ mk_added_refs example_run1) ∧
    ("x" ∈ mk_missing_refs example_run1))) ∧
  (("x" ∈ mk_added_refs example_run1 ∪ mk_missing_refs example_run1) →
   ("x" ∈ mk_cites example_run1) ∧ ("x" ∉ mk_local_refs example_run1)).
Proof.
  refine (make_sorts_cited_keys spec_load example_project example_parent
            "" example_run1 "x" _).
  vm_compute. reflexivity.
Defined.

(** ** Sanitized values and the lookup of one field in every entry *)

Lemma remove_char_gone (c : ascii) (s : string) :
  no_char c (remove_char c s) = true.
Proof.
  induction s as [|a s IH]; [done|]. simpl.
  destruct (ascii_eqb a c) eqn:Ha; [done|]. simpl. by rewrite Ha.
Qed.

Lemma remove_char_keeps (c d : ascii) (s : string) :
  no_char d s = true → no_char d (remove_char c s) = true.
Proof.
  induction s as [|a s IH]; [done|]. simpl.
  intros [Ha Hs]%andb_true_iff.
  destruct (ascii_eqb a c); [by apply IH|]. simpl. by rewrite Ha, IH.
Qed.

Lemma remove_char_id (c : ascii) (s : string) :
  no_char c s = true → remove_char c s = s.
Proof.
  induction s as [|a s IH]; [done|]. simpl.
  intros [Ha Hs]%andb_true_iff. apply negb_true_iff in Ha.
  by rewrite Ha, IH.
Qed.

(** X12.  A sanitized value has no line feed, tab or carriage return;
    sanitizing it again, or sanitizing a value that has none of them,
    changes nothing. *)
Theorem sanitize_clean (s : string) :
  no_char nl (sanitize s) = true ∧
  no_char (ascii_of_nat 9) (sanitize s) = true ∧
  no_char (ascii_of_nat 13) (sanitize s) = true ∧
  sanitize (sanitize s) = sanitize s ∧
  (no_char nl s && no_char (ascii_of_nat 9) s && no_char (ascii_of_nat 13) s
     = true → sanitize s = s).
Proof.
  assert (∀ t, no_char nl t = true → no_char (ascii_of_nat 9) t = true →
               no_char (ascii_of_nat 13) t = true → sanitize t = t) as Hid.
  { intros t H1 H2 H3. unfold sanitize.
    rewrite (remove_char_id nl t) by done.
    rewrite (remove_char_id _ t) by done. by apply remove_char_id. }
  assert (no_char nl (sanitize s) = true) as H1.
  { unfold sanitize. do 2 apply remove_char_keeps. apply remove_char_gone. }
  assert (no_char (ascii_of_nat 9) (sanitize s) = true) as H2.
  { unfold sanitize. apply remove_char_keeps, remove_char_gone. }
  assert (no_char (ascii_of_nat 13) (sanitize s) = true) as H3.
  { unfold sanitize. apply remove_char_gone. }
  repeat split; try done; [by apply Hid|].
  intros [[? ?]%andb_true_iff ?]%andb_true_iff. by apply Hid.
Qed.

Lemma lookup_all_absent (what k : string)
    (l : list (string * gmap string string)) (r : gmap string string) :
  (∀ e v, (k, e) ∈ l → e !! what = Some v → False) →
  foldl (λ result be,
           match be.2 !! what with
           | Some v => <[be.1 := sanitize v]> result
           | None => result
           end) r l !! k = r !! k.
Proof.
  revert r. induction l as [|[k' e'] l IH]; intros r Hno; [done|]. simpl.
  rewrite IH by (intros e v Hin; apply (Hno e v); by right).
  destruct (e' !! what) as [v|] eqn:He; [|done].
  destruct (decide (k' = k)) as [->|Hne].
  - exfalso. apply (Hno e' v); [by left|done].
  - by rewrite lookup_insert_ne.
Qed.

Lemma lookup_all_present (what k : string) (e : gmap string string)
    (v : string) (l : list (string * gmap string string))
    (r : gmap string string) :
  NoDup l.*1 → (k, e) ∈ l → e !! what = Some v →
  foldl (λ result be,
           match be.2 !! what with
           | Some v => <[be.1 := sanitize v]> result
           | None => result
           end) r l !! k = Some (sanitize v).
Proof.
  revert r. induction l as [|[k' e'] l IH]; intros r Hnd Hin He.
  { by apply elem_of_nil in Hin. }
  simpl in Hnd. apply NoDup_cons in Hnd as [Hk' Hnd].
  apply elem_of_cons in Hin as [[= <- <-]|Hin]; simpl.
  - rewrite He. rewrite lookup_all_absent; [by rewrite lookup_insert_eq|].
    intros e2 v2 Hin2 _. apply Hk'. apply list_elem_of_fmap.
    by exists (k, e2).
  - by apply IH.
Qed.

(** X13.  When the file is read, [bib_lookup_all] returns a dictionary
    that gives, for every key, what [bib_lookup] returns for that key and
    field: the sanitized value, and no item when the entry or the field is
    absent. *)
Theorem bib_lookup_all_agrees
    (bibtexparser_load : string → result (option BibDatabase))
    (bib what : string) (bib_database : option BibDatabase) :
  bibtexparser_load bib = Ok bib_database →
  ∃ result,
    bib_lookup_all bibtexparser_load bib what = Ok result ∧
    ∀ bibnick,
      bib_lookup bibtexparser_load bib bibnick what = Ok (result !! bibnick) ∧
      result !! bibnick = sanitize <$> field_of bib_database bibnick what.
Proof.
  intros Hload. unfold bib_lookup_all, bib_lookup. rewrite Hload. simpl.
  eexists. split; [done|]. intros bibnick.
  assert (∀ r o : option string, r = o → Ok o = Ok r ∧ r = o)
    as Hpack by (by intros r o ->).
  unfold field_of. destruct bib_database as [db|]; simpl.
  - destruct (db_entries_dict db !! bibnick) as [entry|] eqn:Hentry; simpl.
    + destruct (entry !! what) as [v|] eqn:Hv; simpl.
      * split; [f_equal|]; (erewrite lookup_all_present;
          [done | apply NoDup_fst_map_to_list
           | by apply elem_of_map_to_list | done]).
      * split; [f_equal|]; (rewrite lookup_all_absent; [done|]);
          intros e v [= H]%elem_of_map_to_list; congruence.
    + split; [f_equal|]; (rewrite lookup_all_absent; [done|]);
        intros e v H%elem_of_map_to_list; congruence.
  - done.
Qed.

Lemma bib_lookup_all_agrees_witness :
  ∃ result,
    bib_lookup_all example_load "" "title" = Ok result ∧
    ∀ bibnick,
      bib_lookup example_load "" bibnick "title" = Ok (result !! bibnick) ∧
      result !! bibnick =
        sanitize <$> field_of
          (Some {| db_entries := [example_entry];
                   db_entries_dict := {[ "k" := example_entry ]} |})
          bibnick "title".
Proof.
  refine (bib_lookup_all_agrees example_load "" "title"
            (Some {| db_entries := [example_entry];
                     db_entries_dict := {[ "k" := example_entry ]} |}) _).
  reflexivity.
Defined.

(** ** File names that follow the bracket convention, and [find_pdfs] *)

Lemma dot_star_bracket_none (s : string) :
  no_char "]" s = true → dot_star_bracket s = None.
Proof.
  induction s as [|c s IH]; [done|]. simpl.
  intros [Hc Hs]%andb_true_iff. apply negb_true_iff in Hc.
  rewrite IH, Hc by done. by destruct (ascii_eqb c nl).
Qed.

Lemma dot_star_bracket_last (g post : string) :
  no_nl g = true → no_char "]" post = true →
  dot_star_bracket (g +:+ "]" +:+ post) = Some g.
Proof.
  intros Hg Hpost. induction g as [|c g IH].
  - change ("" +:+ "]" +:+ post) with (String "]" post). simpl.
    by rewrite dot_star_bracket_none.
  - simpl in Hg. apply andb_true_iff in Hg as [Hc Hg].
    apply negb_true_iff in Hc. rewrite app_cons_s. simpl.
    by rewrite Hc, IH.
Qed.

Lemma match_bracket_other (c : ascii) (s : string) :
  ascii_eqb c "[" = false → match_bracket (String c s) = None.
Proof.
  intros Hc. apply bool_decide_eq_false in Hc. unfold match_bracket.
  destruct c as [[] [] [] [] [] [] [] []]; try done.
Qed.

(** X14.  For a file name with one bracketed key, the key is returned:
    when no opening bracket comes before the key, the key is not empty and
    has no line break, and no closing bracket comes after it. *)
Theorem filename_to_bibnick_convention (pre g post : string) :
  no_char "[" pre = true → g ≠ "" → no_nl g = true →
  no_char "]" post = true →
  filename_to_bibnick (pre +:+ "[" +:+ g +:+ "]" +:+ post) = g.
Proof.
  intros Hpre Hg Hn Hpost. unfold filename_to_bibnick.
  assert (search_bracket (pre +:+ "[" +:+ g +:+ "]" +:+ post) = Some g) as ->;
    [|done].
  induction pre as [|a pre IH].
  - destruct g as [|c g]; [done|].
    simpl in Hn. apply andb_true_iff in Hn as [Hc Hn].
    apply negb_true_iff in Hc.
    change ("" +:+ "[" +:+ String c g +:+ "]" +:+ post)
      with (String "[" (String c (g +:+ "]" +:+ post))).
    rewrite search_bracket_cons. unfold match_bracket.
    by rewrite Hc, dot_star_bracket_last.
  - simpl in Hpre. apply andb_true_iff in Hpre as [Ha Hpre].
    apply negb_true_iff in Ha.
    rewrite app_cons_s, search_bracket_cons, match_bracket_other by done.
    by apply IH.
Qed.

Lemma filename_to_bibnick_convention_witness :
  filename_to_bibnick ("2020 " +:+ "[" +:+ "Smith[a]2020" +:+ "]" +:+
                       " notes.pdf") = "Smith[a]2020".
Proof.
  refine (filename_to_bibnick_convention "2020 " "Smith[a]2020" " notes.pdf"
            _ _ _ _); done.
Defined.

Lemma mapM_ok {A B : Type} (f : A → result B) (g : A → B) (l : list A) :
  (∀ x, f x = Ok (g x)) → mapM f l = Ok (g <$> l).
Proof.
  intros Hf. induction l as [|x l IH]; [done|].
  simpl. by rewrite Hf, IH.
Qed.

Lemma split_head (c : ascii) (s : string) :
  ∃ p ps, split c s = p :: ps ∧ no_char c p = true ∧
          (s = p ∨ ∃ rest, s = p +:+ String c rest).
Proof.
  induction s as [|a s (p & ps & Hs & Hp & Hrest)]; simpl.
  - exists "", []. auto.
  - destruct (ascii_eqb a c) eqn:Ha.
    + apply bool_decide_eq_true in Ha as ->.
      exists "", (split c s). split; [done|]. split; [done|]. right. by exists s.
    + rewrite Hs. exists (String a p), ps. split; [done|].
      split; [simpl; by rewrite Ha|].
      destruct Hrest as [->|[rest ->]]; [by left|right; by exists rest].
Qed.

Lemma stem_spec (filename : string) :
  index (split "." filename) 0 = Ok (stem filename) ∧
  no_char "." (stem filename) = true ∧
  (filename = stem filename ∨
   ∃ rest, filename = stem filename +:+ "." +:+ rest).
Proof.
  unfold stem, index.
  destruct (split_head "." filename) as (p & ps & -> & Hp & Hrest). done.
Qed.

(** X15.  [find_pdfs] never raises: it returns, for each file of the walk
    whose name ends with [.pdf], in order, the part of the name before its
    first dot. *)
Theorem find_pdfs_stems (walk : list (string * list string)) :
  ∃ names,
    find_pdfs walk = Ok names ∧
    Forall2 (λ name filename,
               no_char "." name = true ∧
               ∃ rest, filename = name +:+ "." +:+ rest)
      names
      (filter (λ filename, endswith filename ".pdf" = true)
         (mjoin (snd <$> walk))).
Proof.
  unfold find_pdfs. erewrite mapM_ok; [|intros x; apply stem_spec].
  eexists. split; [done|]. apply Forall2_fmap_l, Forall_Forall2_diag.
  apply Forall_forall. intros f [Hpdf _]%list_elem_of_filter.
  destruct (stem_spec f) as (_ & Hno & [Heq|Hrest]); [|done].
  exfalso. apply endswith_spec in Hpdf as [pre Hpre].
  rewrite <- Heq in Hno. rewrite Hpre in Hno. clear -Hno.
  induction pre as [|a pre IH]; [done|]. rewrite app_cons_s in Hno.
  simpl in Hno. apply andb_true_iff in Hno as [_ Hno]. auto.
Qed.

Lemma find_pdf_from_bibnick_none (abspath : string → string)
    (bibnick : string) (walk : list (string * list string)) :
  Forall (λ rf, pdf_matches bibnick rf.2 = false) (walk_files walk) →
  find_pdf_from_bibnick abspath bibnick walk = None.
Proof.
  intros Hall.
  pose proof (find_pdf_from_bibnick_spec abspath bibnick walk) as H.
  destruct (find_pdf_from_bibnick abspath bibnick walk) as [p|]; [|done].
  destruct H as (pre & root & f & post & Hw & _ & Hf & _).
  rewrite Hw in Hall. apply Forall_app in Hall as [_ Hall].
  apply Forall_cons in Hall as [Hno _]. simpl in Hno. congruence.
Qed.

(** X16.  When no file of the repository has the key in its name and ends
    with [.pdf], [pdfview] still runs the opener, on the path [None]. *)
Theorem pdfview_no_match (abspath : string → string) (nickname : string)
    (walk : list (string * list string)) :
  Forall (λ rf, pdf_matches nickname rf.2 = false) (walk_files walk) →
  pdfview abspath nickname walk =
  "xdg-open " +:+ dq +:+ "None" +:+ dq +:+ " >/dev/null &".
Proof.
  intros Hall. unfold pdfview.
  by rewrite find_pdf_from_bibnick_none.
Qed.

Lemma pdfview_no_match_witness :
  pdfview (λ p, p) "Jones"
    [("/refs", ["notes.txt"; "[Smith2020]paper.pdf"; "Jones.txt"])] =
  "xdg-open " +:+ dq +:+ "None" +:+ dq +:+ " >/dev/null &".
Proof.
  refine (pdfview_no_match (λ p, p) "Jones"
            [("/refs", ["notes.txt"; "[Smith2020]paper.pdf"; "Jones.txt"])] _).
  repeat constructor.
Defined.

(** ** Notes *)

Lemma bib_lookup_many_fields
    (bibtexparser_load : string → result (option BibDatabase))
    (bib bibnick : string) (bib_database : option BibDatabase)
    (whats : list string) :
  bibtexparser_load bib = Ok bib_database →
  ∃ result,
    bib_lookup_many bibtexparser_load bib bibnick whats = Ok result ∧
    ∀ w, w ∈ whats →
      result !! w =
        Some (default "" (sanitize <$> field_of bib_database bibnick w)).
Proof.
  intros Hload. unfold bib_lookup_many. rewrite Hload. simpl.
  eexists. split; [done|]. intros w Hw.
  rewrite lookup_many_default. unfold field_of.
  destruct bib_database as [db|]; simpl.
  - destruct (db_entries_dict db !! bibnick) as [entry|]; simpl.
    + rewrite lookup_many_found, lookup_empty.
      rewrite !bool_decide_eq_true_2 by done. by destruct (entry !! w).
    + by rewrite lookup_empty, bool_decide_eq_true_2.
  - by rewrite lookup_empty, bool_decide_eq_true_2.
Qed.

Lemma format_text (s : string) (template : list segment)
    (data : gmap string string) :
  format (Text s :: template) data =
  rest ← format template data; mret (s +:+ rest).
Proof. reflexivity. Qed.

Lemma format_field (name v : string) (template : list segment)
    (data : gmap string string) :
  data !! name = Some v →
  format (Field name :: template) data =
  rest ← format template data; mret (v +:+ rest).
Proof. intros H. simpl. by rewrite H. Qed.

(** X17.  When the bibliography is read, [init_notes_file] raises no
    [KeyError]: it writes the template with the key, and with the sanitized
    title, author and year of the entry, each empty when the entry or the
    field is absent. *)
Theorem init_notes_file_text
    (bibtexparser_load : string → result (option BibDatabase))
    (bib nickname : string) (bib_database : option BibDatabase) :
  bibtexparser_load bib = Ok bib_database →
  init_notes_file bibtexparser_load bib nickname =
  Ok ("# Notes about " +:+ nickname +:+
      String nl "title: " +:+
      default "" (sanitize <$> field_of bib_database nickname "title") +:+
      String nl "author: " +:+
      default "" (sanitize <$> field_of bib_database nickname "author") +:+
      String nl "year: " +:+
      default "" (sanitize <$> field_of bib_database nickname "year") +:+
      String nl (String nl "## Summary") +:+
      String nl (String nl (String nl "## Comments")) +:+
      String nl (String nl (String nl "## Related Work")) +:+
      String nl (String nl "")).
Proof.
  intros Hload. unfold init_notes_file.
  destruct (bib_lookup_many_fields bibtexparser_load bib nickname bib_database
              ["title"; "year"; "author"] Hload) as (data & -> & Hdata).
  change (Ok data ≫= ?k) with (k data). cbv beta.
  unfold NOTE_FILE_TEMPLATE.
  assert (∀ w, w ∈ ["title"; "year"; "author"] →
            <["bibnick" := nickname]> data !! w =
            Some (default "" (sanitize <$> field_of bib_database nickname w)))
    as Hfield.
  { intros w Hw. rewrite lookup_insert_ne by set_solver. by apply Hdata. }
  rewrite format_text, (format_field "bibnick" nickname)
    by apply lookup_insert_eq.
  rewrite format_text, (format_field _ _ _ _ (Hfield "title" ltac:(set_solver))).
  rewrite format_text, (format_field _ _ _ _ (Hfield "author" ltac:(set_solver))).
  rewrite format_text, (format_field _ _ _ _ (Hfield "year" ltac:(set_solver))).
  rewrite !format_text. simpl format.
  change (Ok "" ≫= ?k) with (k ""). cbv beta.
  repeat (change (mret ?x ≫= ?k) with (k x); cbv beta).
  unfold mret, result_ret. by rewrite app_nil_r_s.
Qed.

Lemma init_notes_file_text_witness :
  init_notes_file example_load "" "k" =
  Ok ("# Notes about " +:+ "k" +:+
      String nl "title: " +:+
      default "" (sanitize <$> field_of
        (Some {| db_entries := [example_entry];
                 db_entries_dict := {[ "k" := example_entry ]} |})
        "k" "title") +:+
      String nl "author: " +:+
      default "" (sanitize <$> field_of
        (Some {| db_entries := [example_entry];
                 db_entries_dict := {[ "k" := example_entry ]} |})
        "k" "author") +:+
      String nl "year: " +:+
      default "" (sanitize <$> field_of
        (Some {| db_entries := [example_entry];
                 db_entries_dict := {[ "k" := example_entry ]} |})
        "k" "year") +:+
      String nl (String nl "## Summary") +:+
      String nl (String nl (String nl "## Comments")) +:+
      String nl (String nl (String nl "## Related Work")) +:+
      String nl (String nl "")).
Proof.
  refine (init_notes_file_text example_load "" "k"
            (Some {| db_entries := [example_entry];
                     db_entries_dict := {[ "k" := example_entry ]} |}) _).
  reflexivity.
Defined.

Example init_notes_file_ex :
  init_notes_file example_load "" "k" =
  Ok (ln "# Notes about k" +:+ ln "title: Title" +:+ ln "author: " +:+
      ln "year: " +:+ ln "" +:+ ln "## Summary" +:+ ln "" +:+ ln "" +:+
      ln "## Comments" +:+ ln "" +:+ ln "" +:+ ln "## Related Work" +:+ ln "").
Proof. vm_compute. reflexivity. Qed.

(** X18.  After [edit_notes] returns, the notes file of the key exists
    and no other file has changed; a notes file that was there before is
    left as it was; and a later call for the same key writes nothing,
    whatever the environment, the bibliography and its reader then are. *)
Theorem edit_notes_writes_once
    (load1 load2 : string → result (option BibDatabase))
    (env1 env2 : gmap string string) (refrepo : string)
    (fs fs1 : gmap string string) (bib1 bib2 nickname cmd1 : string) :
  edit_notes load1 env1 refrepo fs bib1 nickname = Ok (fs1, cmd1) →
  is_Some (fs1 !! get_notes_from_bibnick nickname refrepo) ∧
  (∀ path, path ≠ get_notes_from_bibnick nickname refrepo →
           fs1 !! path = fs !! path) ∧
  (is_Some (fs !! get_notes_from_bibnick nickname refrepo) → fs1 = fs) ∧
  edit_notes load2 env2 refrepo fs1 bib2 nickname =
    Ok (fs1, editor_command env2 (get_notes_from_bibnick nickname refrepo)).
Proof.
  unfold edit_notes. intros Hrun.
  destruct (fs !! get_notes_from_bibnick nickname refrepo) as [old|] eqn:Hold.
  - injection Hrun as <- <-. rewrite Hold. eauto.
  - destruct (init_notes_file load1 bib1 nickname) as [s| |];
      simpl in Hrun; try done.
    injection Hrun as <- <-. rewrite lookup_insert_eq.
    split; [by eexists|]. split; [|split; [|done]].
    + intros path Hne. by rewrite lookup_insert_ne.
    + by intros [? ?].
Qed.

Lemma edit_notes_writes_once_witness :
  is_Some (<[ "refs/k_noted.md" := "my notes" ]> (∅ : gmap string string)
             !! get_notes_from_bibnick "k" "refs") ∧
  (∀ path, path ≠ get_notes_from_bibnick "k" "refs" →
           <[ "refs/k_noted.md" := "my notes" ]> (∅ : gmap string string)
             !! path =
           <[ "refs/k_noted.md" := "my notes" ]> (∅ : gmap string string)
             !! path) ∧
  (is_Some (<[ "refs/k_noted.md" := "my notes" ]> (∅ : gmap string string)
              !! get_notes_from_bibnick "k" "refs") →
   <[ "refs/k_noted.md" := "my notes" ]> (∅ : gmap string string) =
   <[ "refs/k_noted.md" := "my notes" ]> (∅ : gmap string string)) ∧
  edit_notes example_load {[ "EDITOR" := "vi" ]} "refs"
    (<[ "refs/k_noted.md" := "my notes" ]> (∅ : gmap string string)) "" "k" =
    Ok (<[ "refs/k_noted.md" := "my notes" ]> (∅ : gmap string string),
        editor_command {[ "EDITOR" := "vi" ]}
          (get_notes_from_bibnick "k" "refs")).
Proof.
  refine (edit_notes_writes_once spec_load example_load
            {[ "GUI_EDITOR" := "gedit" ]} {[ "EDITOR" := "vi" ]} "refs"
            (<[ "refs/k_noted.md" := "my notes" ]> ∅)
            (<[ "refs/k_noted.md" := "my notes" ]> ∅)
            "@broken" "" "k"
            (editor_command {[ "GUI_EDITOR" := "gedit" ]}
               (get_notes_from_bibnick "k" "refs")) _).
  vm_compute. reflexivity.
Defined.

(** ** The keys [status] derives from file names *)

Lemma no_char_app (c : ascii) (a b : string) :
  no_char c (a +:+ b) = no_char c a && no_char c b.
Proof.
  induction a as [|x a IH]; [done|]. rewrite app_cons_s. simpl.
  by rewrite IH, andb_assoc.
Qed.

Lemma search_bracket_none (s : string) :
  no_char "]" s = true → search_bracket s = None.
Proof.
  induction s as [|a s IH]; [done|].
  intros Hs. rewrite search_bracket_cons.
  destruct (match_bracket (String a s)) as [g|] eqn:Hm.
  - apply match_bracket_sound in Hm as (_ & _ & post & Heq).
    rewrite Heq, !no_char_app in Hs.
    change (no_char "]" "]") with false in Hs.
    by rewrite !andb_false_r in Hs.
  - simpl in Hs. apply andb_true_iff in Hs as [_ Hs]. auto.
Qed.

Lemma stem_no_dot (s : string) : no_char "." s = true → stem s = s.
Proof.
  intros Hs. destruct (stem_spec s) as (_ & _ & [Heq|[rest Heq]]); [done|].
  exfalso. rewrite Heq, !no_char_app in Hs.
  change (no_char "." ".") with false in Hs.
  by rewrite !andb_false_r in Hs.
Qed.

Lemma stem_app (a b : string) :
  no_char "." a = true → stem (a +:+ b) = a +:+ stem b.
Proof.
  unfold stem. induction a as [|c a IH]; [done|].
  intros [Hc Ha]%andb_true_iff. apply negb_true_iff in Hc.
  rewrite !app_cons_s. simpl. rewrite Hc. specialize (IH Ha).
  pose proof (split_nonempty "." (a +:+ b)) as Hne.
  destruct (split "." (a +:+ b)) as [|p ps]; [done|].
  simpl in *. by rewrite IH.
Qed.

Lemma stem_no_char (c : ascii) (s : string) :
  no_char c s = true → no_char c (stem s) = true.
Proof.
  unfold stem. destruct (split_head "." s) as (p & ps & Hs & _ & _).
  pose proof (split_pieces "." c s p) as [_ H]; [rewrite Hs; by left|].
  by rewrite Hs.
Qed.

Lemma search_bracket_one_pair (pre g post : string) :
  no_char "[" pre = true → g ≠ "" → no_nl g = true →
  no_char "]" post = true →
  search_bracket (pre +:+ "[" +:+ g +:+ "]" +:+ post) = Some g.
Proof.
  intros Hpre Hg Hn Hpost. induction pre as [|a pre IH].
  - destruct g as [|c g]; [done|].
    simpl in Hn. apply andb_true_iff in Hn as [Hc Hn].
    apply negb_true_iff in Hc.
    change ("" +:+ "[" +:+ String c g +:+ "]" +:+ post)
      with (String "[" (String c (g +:+ "]" +:+ post))).
    rewrite search_bracket_cons. unfold match_bracket.
    by rewrite Hc, dot_star_bracket_last.
  - simpl in Hpre. apply andb_true_iff in Hpre as [Ha Hpre].
    apply negb_true_iff in Ha.
    rewrite app_cons_s, search_bracket_cons, match_bracket_other by done.
    by apply IH.
Qed.

(** X19.  For a file name with one bracketed key and no dot in or before
    the key, [status], which cuts the name at its first dot before it looks
    for the brackets, derives the same key as [filename_to_bibnick] gives
    for the whole name: the key between the brackets. *)
Theorem status_key_convention (pre g post : string) :
  no_char "[" pre = true → no_char "." pre = true →
  g ≠ "" → no_nl g = true → no_char "." g = true →
  no_char "]" post = true →
  filename_to_bibnick (stem (pre +:+ "[" +:+ g +:+ "]" +:+ post)) = g ∧
  filename_to_bibnick (pre +:+ "[" +:+ g +:+ "]" +:+ post) = g.
Proof.
  intros Hpre Hpre' Hg Hn Hg' Hpost. unfold filename_to_bibnick. split.
  - assert (pre +:+ "[" +:+ g +:+ "]" +:+ post =
            (pre +:+ "[" +:+ g +:+ "]") +:+ post) as ->
      by (by rewrite !app_assoc_s).
    rewrite stem_app by (by rewrite !no_char_app, Hpre', Hg').
    rewrite !app_assoc_s.
    rewrite search_bracket_one_pair; [done..|]. by apply stem_no_char.
  - by rewrite search_bracket_one_pair.
Qed.

Lemma status_key_convention_witness :
  filename_to_bibnick (stem ("" +:+ "[" +:+ "Smith2020" +:+ "]" +:+
                             "notes.v2.pdf")) = "Smith2020" ∧
  filename_to_bibnick ("" +:+ "[" +:+ "Smith2020" +:+ "]" +:+
                       "notes.v2.pdf") = "Smith2020".
Proof.
  refine (status_key_convention "" "Smith2020" "notes.v2.pdf" _ _ _ _ _ _);
    done.
Defined.

(** X20.  A dot before the closing bracket loses the key in [status]:
    when the file name has no closing bracket before its first dot, the key
    [status] derives is the name up to that dot, brackets included. *)
Theorem status_key_dot_in_brackets (name rest : string) :
  no_char "]" name = true → no_char "." name = true →
  filename_to_bibnick (stem (name +:+ "." +:+ rest)) = name.
Proof.
  intros Hb Hd.
  change (name +:+ "." +:+ rest) with (name +:+ String "." rest).
  rewrite stem_app by done.
  change (stem (String "." rest)) with "". rewrite app_nil_r_s.
  unfold filename_to_bibnick. by rewrite search_bracket_none.
Qed.

Lemma status_key_dot_in_brackets_witness :
  filename_to_bibnick (stem ("[Smith" +:+ "." +:+ "2020]notes.pdf")) =
  "[Smith".
Proof.
  refine (status_key_dot_in_brackets "[Smith" "2020]notes.pdf" _ _); done.
Defined.

(** ** What [status] prints, and [search_for] *)

Lemma omap_nil_iff {A B : Type} (f : A → option B) (l : list A) :
  omap f l = [] ↔ Forall (λ x, f x = None) l.
Proof.
  induction l as [|x l IH]; simpl.
  - split; [constructor|done].
  - destruct (f x) eqn:Hx.
    + split; [done|]. intros [? _]%Forall_cons. congruence.
    + rewrite IH. split; [by constructor|]. by intros [_ ?]%Forall_cons.
Qed.

(** X21.  A run of [status] that returns prints the empty string exactly
    when the keys of the PDF files are the keys of the bibliography and
    none of them has a title: a file whose entry has no title is listed in
    no section. *)
Theorem status_prints_nothing_iff
    (bibtexparser_load : string → result (option BibDatabase))
    (walk : list (string * list string)) (bib : string) (r : status_run) :
  status bibtexparser_load walk bib = Ok r →
  (st_out r = "" ↔
   st_files r = st_refs r ∧ ∀ nick, nick ∈ st_files r → st_bnt r !! nick = None).
Proof.
  unfold status. intros Hrun.
  destruct (find_pdfs walk) as [names| |]; simpl in Hrun; try done.
  destruct (bib_nicknames bibtexparser_load bib) as [refs| |];
    simpl in Hrun; try done.
  destruct (bib_nicks_titles bibtexparser_load bib) as [bnt| |];
    simpl in Hrun; try done.
  injection Hrun as <-. simpl.
  generalize (list_to_set (filename_to_bibnick <$> names) : gset string).
  intros files. split.
  - intros [[H1 H2]%app_empty_s H3]%app_empty_s.
    apply printer_empty_inv in H1, H2, H3.
    apply elements_empty_inv, leibniz_equiv in H2, H3.
    assert (files = refs) as Heq.
    { apply set_eq. intros k. split; intros Hk; apply dec_stable; intros Hn.
      - assert (k ∈ files ∖ refs) as Hd by by apply elem_of_difference.
        rewrite H2 in Hd. by apply not_elem_of_empty in Hd.
      - assert (k ∈ refs ∖ files) as Hd by by apply elem_of_difference.
        rewrite H3 in Hd. by apply not_elem_of_empty in Hd. }
    split; [done|].
    intros nick Hnick. apply omap_nil_iff in H1.
    rewrite Forall_forall in H1. specialize (H1 nick).
    destruct (bnt !! nick); [|done]. exfalso.
    assert (nick ∈ elements (files ∩ refs)) as Hin
      by (apply elem_of_elements, elem_of_intersection; by rewrite <- Heq).
    by specialize (H1 Hin).
  - intros [Heq Hno].
    assert (omap (λ nick, nick_title_line nick <$> bnt !! nick)
              (elements (files ∩ refs)) = []) as ->.
    { apply omap_nil_iff, Forall_forall. intros nick Hin.
      rewrite Hno; [done|]. set_solver. }
    rewrite Heq.
    assert (refs ∖ refs = (∅ : gset string)) as -> by set_solver.
    by rewrite elements_empty.
Qed.

Lemma search_for_loop_spec (r : string → bool)
    (l : list (string * string)) (results : gset string) (k : string) :
  k ∈ foldl (λ results kv,
               if r kv.2 : bool then results ∪ {[kv.1]}
               else results) results l ↔
  k ∈ results ∨ ∃ v, (k, v) ∈ l ∧ r v = true.
Proof.
  revert results. induction l as [|[k' v'] l IH]; intros results; simpl.
  - split; [by left|]. intros [?|(v & Hin & _)]; [done|].
    by apply elem_of_nil in Hin.
  - rewrite IH. split.
    + intros [Hk|(v & Hin & Hv)].
      * destruct (r v') eqn:Hv'; [|by left].
        apply elem_of_union in Hk as [Hk|Hk]; [by left|].
        apply elem_of_singleton in Hk as ->. right. exists v'.
        split; [by left|done].
      * right. exists v. split; [by right|done].
    + intros [Hk|(v & Hin & Hv)].
      * left. destruct (r v'); set_solver.
      * apply elem_of_cons in Hin as [[= -> ->]|Hin].
        -- left. rewrite Hv. set_solver.
        -- right. by exists v.
Qed.

(** X22.  [search_for] compiles the search string before it reads the
    bibliography: for a search string that is not a regular expression it
    raises [re.error], whatever the bibliography.  For one that compiles,
    when the bibliography is read, it returns the keys of the entries that
    have the field and whose sanitized value the compiled pattern
    matches. *)
Theorem search_for_matches
    (bibtexparser_load : string → result (option BibDatabase))
    (re_compile : string → option (string → bool))
    (bib what searchstring : string) :
  (re_compile searchstring = None →
   search_for bibtexparser_load re_compile bib what searchstring = ReError) ∧
  (∀ r bib_database,
     re_compile searchstring = Some r →
     bibtexparser_load bib = Ok bib_database →
     ∃ results,
       search_for bibtexparser_load re_compile bib what searchstring =
         Searched (Ok results) ∧
       ∀ k, k ∈ results ↔
            ∃ v, field_of bib_database k what = Some v ∧
                 r (sanitize v) = true).
Proof.
  unfold search_for. split; [by intros ->|].
  intros r bib_database -> Hload. unfold bib_lookup_all. rewrite Hload. simpl.
  eexists. split; [done|]. intros k.
  rewrite search_for_loop_spec.
  set (stuff := match bib_database with
                | Some db => foldl _ ∅ (map_to_list (db_entries_dict db))
                | None => ∅
                end).
  assert (∀ k, stuff !! k = sanitize <$> field_of bib_database k what)
    as Hstuff.
  { intros k0. unfold stuff, field_of.
    destruct bib_database as [db|]; simpl; [|done].
    destruct (db_entries_dict db !! k0) as [entry|] eqn:Hentry; simpl.
    - destruct (entry !! what) as [v|] eqn:Hv; simpl.
      + erewrite lookup_all_present;
          [done | apply NoDup_fst_map_to_list
           | by apply elem_of_map_to_list | done].
      + rewrite lookup_all_absent; [done|].
        intros e v [= H]%elem_of_map_to_list; congruence.
    - rewrite lookup_all_absent; [done|].
      intros e v H%elem_of_map_to_list; congruence. }
  split.
  - intros [Hk|(v & Hin & Hv)]; [set_solver|].
    apply elem_of_map_to_list in Hin. rewrite Hstuff in Hin.
    destruct (field_of bib_database k what) as [v0|]; [|done].
    injection Hin as <-. by exists v0.
  - intros (v & Hf & Hv). right. exists (sanitize v). split; [|done].
    apply elem_of_map_to_list. by rewrite Hstuff, Hf.
Qed.

Lemma status_prints_nothing_iff_witness :
  ∃ r,
    status example_load [("refs", ["[k]paper.pdf"; "notes.txt"])] "" = Ok r ∧
    (st_out r = "" ↔
     st_files r = st_refs r ∧
     ∀ nick, nick ∈ st_files r → st_bnt r !! nick = None).
Proof.
  eexists. split; [vm_compute; reflexivity|].
  refine (status_prints_nothing_iff example_load
            [("refs", ["[k]paper.pdf"; "notes.txt"])] "" _ _).
  vm_compute. reflexivity.
Defined.

Lemma search_for_matches_witness :
  search_for failing_load example_compile "" "title" "(" = ReError ∧
  ∃ results,
    search_for example_load example_compile "" "title" "itl" =
      Searched (Ok results) ∧
    ∀ k, k ∈ results ↔
         ∃ v, field_of
                (Some {| db_entries := [example_entry];
                         db_entries_dict := {[ "k" := example_entry ]} |})
                k "title" = Some v ∧
              (λ text, contains text "itl") (sanitize v) = true.
Proof.
  split.
  - refine (proj1 (search_for_matches failing_load example_compile
                     "" "title" "(") _).
    reflexivity.
  - refine (proj2 (search_for_matches example_load example_compile
                     "" "title" "itl")
              (λ text, contains text "itl")
              (Some {| db_entries := [example_entry];
                       db_entries_dict := {[ "k" := example_entry ]} |})
              _ _).
    + reflexivity.
    + reflexivity.
Defined.

(** * The splitter, the scanner and [make], as whole runs *)

(** ** What the splitter returns, block by block *)

Lemma required_header_spec (line : string) (required : gset string) :
  is_required_entry line required =
  match required_header line required with
  | Some _ => Ok true
  | None =>
      if braceless_entry line then
        match entry_key line with
        | Ok _ => Ok false
        | Raise e => Raise e
        | Timeout => Timeout
        end
      else Ok false
  end.
Proof.
  unfold is_required_entry, required_header, braceless_entry.
  destruct (starts_entry line); [|done]. simpl.
  destruct (entry_key line) as [k| |]; simpl; try done.
  by case_bool_decide.
Qed.

Lemma required_header_key (line k : string) (required : gset string) :
  required_header line required = Some k → entry_key line = Ok k.
Proof.
  unfold required_header. destruct (starts_entry line); [|done].
  destruct (entry_key line) as [k'| |]; try done.
  case_bool_decide; [|done]. by intros [= ->].
Qed.

Lemma required_header_body (line : string) (required : gset string) :
  in_body line = true → required_header line required = None.
Proof.
  intros Hb. unfold required_header.
  destruct (starts_entry line) eqn:Hs; [|done].
  apply starts_entry_not_body in Hs. congruence.
Qed.

Lemma extracted_blocks_drop_body (rest : list string)
    (required : gset string) :
  extracted_blocks (drop_while in_body rest) required =
  extracted_blocks rest required.
Proof.
  induction rest as [|l rest IH]; [done|]. simpl.
  destruct (in_body l) eqn:Hb; [|done].
  by rewrite IH, required_header_body.
Qed.

(** The loop of the splitter, from any state, on lines none of which is a
    header without a brace: it appends the text of the blocks and leaves
    the keys that they leave. *)
Lemma bib_strip_on_blocks (n : nat) (ls : list string) (st : strip_state) :
  length ls < n → file_lines ls →
  existsb braceless_entry ls = false →
  ∃ added,
    bib_strip_on n ls st =
    Ok (StripState (extracted_blocks ls (s_entries st)).2 added
          (s_child_bib st +:+ (extracted_blocks ls (s_entries st)).1)).
Proof.
  revert ls st. induction n as [|n IH]; intros ls st Hn Hf Hno; [lia|].
  destruct ls as [|line rest].
  { exists (s_added_entries st). simpl. rewrite app_nil_r_s. by destruct st. }
  simpl in Hn. rewrite bib_strip_on_step by lia.
  case_bool_decide as Hline.
  { subst. apply file_lines_nonempty in Hf. by inversion Hf. }
  pose proof (file_lines_tail _ _ Hf) as Hf'.
  pose proof (drop_while_length in_body rest) as Hlen.
  simpl in Hno. apply orb_false_iff in Hno as [Hline' Hno].
  rewrite required_header_spec, Hline'. simpl extracted_blocks.
  destruct (required_header line (s_entries st)) as [k|] eqn:Hh; simpl.
  - rewrite (required_header_key _ _ _ Hh). simpl.
    destruct (IH (drop_while in_body rest) (take_block line k rest st))
      as [added Hrun];
      [lia|by apply file_lines_drop_while|by rewrite braceless_drop_body|].
    exists added. rewrite Hrun. simpl.
    rewrite extracted_blocks_drop_body. unfold body_text.
    by rewrite !app_assoc_s.
  - by apply IH; [lia| |].
Qed.

(** C1, as the program has it.  On a parent in which every line that
    begins with [@] has a brace, [bib_strip] returns.  The text it returns
    is made block by block: at each line that begins, after trimming, with
    [@] and whose key is still required, the key leaves the required set
    and the text gets that line, then the lines that follow it up to the
    first one that is blank after trimming or begins with [@] (or the end
    of the file), without those that begin with [#], then one byte 10;
    each line is in the text as it is in the file.  The keys that remain
    are returned as missing, the others as added. *)
Theorem bib_strip_extracts_blocks (parent_bib : string)
    (required : gset string) :
  existsb braceless_entry (open parent_bib) = false →
  bib_strip parent_bib required =
  Ok ((extracted_blocks (open parent_bib) required).1,
      required ∖ (extracted_blocks (open parent_bib) required).2,
      (extracted_blocks (open parent_bib) required).2).
Proof.
  intros Hno.
  pose proof (readlines_file_lines parent_bib) as Hf.
  fold (open parent_bib) in Hf.
  destruct (bib_strip_on_blocks (S (length (open parent_bib)))
              (open parent_bib) (StripState required ∅ "")) as [added Hrun];
    [lia|done|done|].
  simpl in Hrun. rewrite app_nil_l_s in Hrun.
  pose proof (bib_strip_on_partition _ _ _ _ (Nat.lt_succ_diag_r _) Hrun)
    as [Hun Hdj]; [apply disjoint_empty_r|]. simpl in Hun, Hdj.
  unfold bib_strip.
  rewrite (bib_strip_from_on (S (length (open parent_bib)))) by lia.
  rewrite Hrun. simpl. do 3 f_equal.
  apply set_eq. intros x. rewrite elem_of_difference.
  assert (x ∈ (extracted_blocks (open parent_bib) required).2 ∪ added ↔
          x ∈ required ∪ ∅) as Hx by by rewrite Hun.
  rewrite !elem_of_union in Hx.
  specialize (Hdj x). set_solver.
Qed.

Lemma bib_strip_extracts_blocks_witness :
  existsb braceless_entry
    (open (ln "% refs" +:+ ln "@book{b," +:+ ln " year = 1" +:+
           ln "# note" +:+ ln "}" +:+ ln "" +:+ ln "@misc{c," +:+ "}")) =
    false ∧
  bib_strip (ln "% refs" +:+ ln "@book{b," +:+ ln " year = 1" +:+
             ln "# note" +:+ ln "}" +:+ ln "" +:+ ln "@misc{c," +:+ "}")
    {["b"; "c"; "z"]} =
  Ok (ln "@book{b," +:+ ln " year = 1" +:+ ln "}" +:+ ln "" +:+
      ln "@misc{c," +:+ ln "}",
      {["b"; "c"]}, {["z"]}).
Proof.
  split; [vm_compute; reflexivity|].
  rewrite (bib_strip_extracts_blocks
             (ln "% refs" +:+ ln "@book{b," +:+ ln " year = 1" +:+
              ln "# note" +:+ ln "}" +:+ ln "" +:+ ln "@misc{c," +:+ "}")
             {["b"; "c"; "z"]}) by (vm_compute; reflexivity).
  vm_compute. reflexivity.
Defined.

(** C1, as the claim words it, fails in two ways.  An entry with a blank
    line inside is cut at the blank line: the text [bib_strip] returns for
    it is not the block up to the next line that begins with [@].  And the
    block of an entry that ends a file with no final byte 10 is closed by
    that byte alone: no line of the returned text is blank. *)
Lemma bib_strip_stops_at_blank :
  bib_strip (ln "@article{k," +:+ ln " a = 1," +:+ ln "" +:+ ln " b = 2" +:+
             ln "}") {["k"]} =
    Ok (ln "@article{k," +:+ ln " a = 1," +:+ ln "", {["k"]}, ∅) ∧
  ln "@article{k," +:+ ln " a = 1," +:+ ln "" ≠
    (blocks_to_next_entry
       (open (ln "@article{k," +:+ ln " a = 1," +:+ ln "" +:+ ln " b = 2" +:+
              ln "}")) {["k"]}).1 ∧
  bib_strip (ln "@article{k," +:+ "}") {["k"]} =
    Ok (ln "@article{k," +:+ ln "}", {["k"]}, ∅) ∧
  Forall (λ l, strip l ≠ "") (readlines (ln "@article{k," +:+ ln "}")).
Proof.
  split; [vm_compute; reflexivity|].
  split; [vm_compute; discriminate|].
  split; [vm_compute; reflexivity|].
  repeat constructor; vm_compute; discriminate.
Qed.

(** ** Citation commands in a text: where the scan finds them *)

Lemma strip_prefix_app_some (pat p r s : string) :
  strip_prefix pat p = Some r → strip_prefix pat (p +:+ s) = Some (r +:+ s).
Proof.
  revert p. induction pat as [|a pat IH]; intros p.
  - simpl. by intros [= ->].
  - destruct p as [|b p]; simpl; [done|]. rewrite ?app_cons_s; simpl.
    destruct (ascii_eqb a b); [apply IH|done].
Qed.

Lemma strip_prefix_tail_none (pat p s : string) :
  no_backslash pat = true → strip_prefix pat p = None →
  strip_prefix pat (p +:+ String "\" s) = None.
Proof.
  revert p. induction pat as [|a pat IH]; intros p; [done|]. simpl.
  intros [Ha Hpat]%andb_true_iff. apply negb_true_iff in Ha.
  destruct p as [|b p].
  - intros _. rewrite app_nil_l_s. simpl. by rewrite Ha.
  - rewrite ?app_cons_s; simpl. destruct (ascii_eqb a b); [by apply IH|done].
Qed.

Lemma strip_prefix_self (pat r : string) :
  strip_prefix pat (pat +:+ r) = Some r.
Proof.
  induction pat as [|a pat IH]; [by rewrite app_nil_l_s|].
  rewrite ?app_cons_s; simpl. unfold ascii_eqb at 1.
  by rewrite bool_decide_eq_true_2.
Qed.

Lemma strip_prefix_eq (pat p r : string) :
  strip_prefix pat p = Some r → p = pat +:+ r.
Proof.
  revert p. induction pat as [|a pat IH]; intros p.
  - simpl. intros [= ->]. by rewrite app_nil_l_s.
  - destruct p as [|b p]; simpl; [done|].
    destruct (ascii_eqb a b) eqn:Hab; [|done].
    apply bool_decide_eq_true in Hab as ->. intros H%IH.
    by rewrite app_cons_s, H.
Qed.

Lemma lazy_brace_app_some (r g rest s : string) :
  lazy_brace r = Some (g, rest) → lazy_brace (r +:+ s) = Some (g, rest +:+ s).
Proof.
  revert g. induction r as [|c r IH]; intros g; simpl; [done|].
  rewrite ?app_cons_s; simpl.
  destruct (ascii_eqb c "}"); [by intros [= <- <-]|].
  destruct (ascii_eqb c nl); [done|].
  destruct (lazy_brace r) as [[g' rest']|]; simpl; [|done].
  intros [= <- <-]. by rewrite (IH g' eq_refl).
Qed.

Lemma lazy_brace_app_none (r s : string) :
  lazy_brace r = None → no_char "}" r && no_nl r = false →
  lazy_brace (r +:+ s) = None.
Proof.
  induction r as [|c r IH]; simpl; [done|]. rewrite ?app_cons_s; simpl.
  destruct (ascii_eqb c "}"); [done|].
  destruct (ascii_eqb c nl); [done|]. simpl.
  destruct (lazy_brace r) as [[g' rest']|]; simpl; [done|].
  intros _ H. by rewrite IH.
Qed.

Lemma lazy_brace_eq (r g rest : string) :
  lazy_brace r = Some (g, rest) → r = g +:+ String "}" rest.
Proof.
  revert g. induction r as [|c r IH]; intros g; simpl; [done|].
  destruct (ascii_eqb c "}") eqn:Hc.
  { apply bool_decide_eq_true in Hc as ->. by intros [= <- <-]. }
  destruct (ascii_eqb c nl); [done|].
  destruct (lazy_brace r) as [[g' rest']|]; simpl; [|done].
  intros [= <- <-]. by rewrite app_cons_s, <- (IH g' eq_refl).
Qed.

Lemma lazy_brace_arg (arg post : string) :
  no_char "}" arg = true → no_nl arg = true →
  lazy_brace (arg +:+ String "}" post) = Some (arg, post).
Proof.
  induction arg as [|c arg IH]; [done|]. simpl.
  intros [Hc Harg]%andb_true_iff [Hn Hnl]%andb_true_iff.
  apply negb_true_iff in Hc, Hn. rewrite ?app_cons_s; simpl.
  by rewrite Hc, Hn, IH.
Qed.

Lemma strip_prefix_app_none (a : ascii) (pat p s : string) :
  no_backslash pat = true → p ≠ "" →
  strip_prefix (String a pat) p = None →
  strip_prefix (String a pat) (p +:+ String "\" s) = None.
Proof.
  intros Hpat Hp. destruct p as [|b p]; [done|]. simpl.
  destruct (ascii_eqb a b); [by apply strip_prefix_tail_none|done].
Qed.

(** A match of one alternative at the start of [p] is the same when text
    that begins with a backslash follows [p], unless the command is left
    open in [p]. *)
Lemma match_cmd_app (cmd p s : string) :
  no_backslash cmd = true → p ≠ "" →
  match strip_prefix ("\" +:+ cmd) p ≫= strip_prefix "{" with
  | Some t => no_char "}" t && no_nl t
  | None => false
  end = false →
  match_cmd cmd (p +:+ String "\" s) =
  (λ m, (m.1, m.2 +:+ String "\" s)) <$> match_cmd cmd p.
Proof.
  intros Hcmd Hp Hopen. unfold match_cmd.
  rewrite app_cons_s, app_nil_l_s in *.
  destruct (strip_prefix (String "\" cmd) p) as [r|] eqn:Hr.
  - rewrite (strip_prefix_app_some _ _ _ (String "\" s) Hr).
    destruct r as [|c r]; [done|].
    simpl in Hopen. simpl. destruct (ascii_eqb "{" c); [|done].
    simpl in Hopen. simpl.
    destruct (lazy_brace r) as [[g rest]|] eqn:Hl.
    + by rewrite (lazy_brace_app_some _ _ _ (String "\" s) Hl).
    + by rewrite lazy_brace_app_none.
  - by rewrite strip_prefix_app_none.
Qed.

Lemma match_citere_app (p s : string) :
  opens_unclosed p = false → p ≠ "" →
  match_citere (p +:+ String "\" s) =
  (λ m, (m.1, m.2 +:+ String "\" s)) <$> match_citere p.
Proof.
  unfold opens_unclosed, match_citere, cites. simpl.
  intros [H1 [H2 _]%orb_false_iff]%orb_false_iff Hp.
  rewrite !match_cmd_app by done.
  destruct (match_cmd "cite" p) as [m|]; [done|]. simpl.
  by destruct (match_cmd "fullcite" p).
Qed.

Lemma match_citere_eq (p g1 g2 rest : string) :
  match_citere p = Some (g1, g2, rest) → ∃ a, p = a +:+ rest.
Proof.
  assert (∀ cmd, match_cmd cmd p = Some (g1, g2, rest) → ∃ a, p = a +:+ rest)
    as Hcmd.
  { intros cmd. unfold match_cmd. intros H.
    apply bind_Some in H as (r & H1 & H).
    apply bind_Some in H as (r' & H2 & H).
    apply bind_Some in H as ([g rest'] & H3 & [= <- <- <-]).
    apply strip_prefix_eq in H1, H2. apply lazy_brace_eq in H3. subst.
    exists (("\" +:+ cmd) +:+ "{" +:+ g +:+ "}").
    by rewrite !app_assoc_s. }
  unfold match_citere, cites. simpl.
  destruct (match_cmd "cite" p) as [m|] eqn:H1.
  { intros [= ->]. by eapply Hcmd. }
  destruct (match_cmd "fullcite" p) as [m|] eqn:H2; [|done].
  intros [= ->]. by eapply Hcmd.
Qed.

Lemma in_open_citation_suffix (a b : string) :
  in_open_citation (a +:+ b) = false → in_open_citation b = false.
Proof.
  induction a as [|c a IH]; [by rewrite app_nil_l_s|].
  rewrite ?app_cons_s; simpl. intros [_ H]%orb_false_iff. by apply IH.
Qed.

Lemma in_open_citation_here (p : string) :
  in_open_citation p = false → opens_unclosed p = false.
Proof.
  destruct p; [done|]. simpl in_open_citation.
  by intros [H _]%orb_false_iff.
Qed.

(** The scan of a text in which no citation command is left open goes on
    in what follows it as if it started there. *)
Lemma findall_citere_app (pre s : string) :
  in_open_citation pre = false →
  findall_citere (pre +:+ String "\" s) =
  findall_citere pre ++ findall_citere (String "\" s).
Proof.
  remember (String.length pre) as n eqn:Hn. revert pre Hn.
  induction n as [n IH] using lt_wf_ind. intros pre -> Hopen.
  destruct pre as [|c pre].
  { rewrite app_nil_l_s. by rewrite (findall_citere_eq ""). }
  rewrite (findall_citere_eq (String c pre +:+ String "\" s)).
  rewrite (findall_citere_eq (String c pre)).
  rewrite match_citere_app by (by apply in_open_citation_here || done).
  destruct (match_citere (String c pre)) as [[[g1 g2] rest]|] eqn:Hm; simpl.
  - f_equal. pose proof (match_citere_shortens _ _ _ _ Hm) as Hlen.
    apply match_citere_eq in Hm as [a Ha].
    eapply IH; [exact Hlen|done|].
    rewrite Ha in Hopen. by eapply in_open_citation_suffix.
  - eapply IH; [|done|].
    + simpl. lia.
    + simpl in Hopen. by apply orb_false_iff in Hopen as [_ ?].
Qed.

(** A citation command at the start of a text is the first match, its
    argument list the text up to the first closing brace. *)
Lemma findall_citere_command (cmd arg post : string) :
  cmd ∈ cites → no_char "}" arg = true → no_nl arg = true →
  findall_citere ("\" +:+ cmd +:+ "{" +:+ arg +:+ "}" +:+ post) =
  ("\" +:+ cmd, arg) :: findall_citere post.
Proof.
  intros Hcmd Harg Hnl. rewrite findall_citere_eq.
  assert (match_cmd cmd ("\" +:+ cmd +:+ "{" +:+ arg +:+ "}" +:+ post) =
          Some ("\" +:+ cmd, arg, post)) as Hm.
  { unfold match_cmd. rewrite <- (app_assoc_s "\" cmd).
    rewrite strip_prefix_self. simpl.
    rewrite app_nil_l_s. change ("}" +:+ post) with (String "}" post).
    by rewrite lazy_brace_arg. }
  unfold match_citere, cites in *. simpl.
  apply elem_of_cons in Hcmd as [-> | Hcmd]; [by rewrite Hm|].
  apply list_elem_of_singleton in Hcmd as ->. by rewrite Hm.
Qed.

(** ** The text the scanner searches has no line break *)

Lemma no_nl_no_char (s : string) : no_nl s = no_char nl s.
Proof. induction s as [|c s IH]; simpl; [done|]. by rewrite IH. Qed.

Lemma no_nl_app (a b : string) : no_nl (a +:+ b) = no_nl a && no_nl b.
Proof. rewrite !no_nl_no_char. apply no_char_app. Qed.

Lemma strip_lines_no_nl (ls : list string) :
  file_lines ls → no_nl (join (strip <$> ls)) = true.
Proof.
  induction 1 as [|l [_ Hl]|l ls (b & -> & Hb) Hls IH]; [done| |].
  - change (join (strip <$> [l])) with (strip l +:+ "").
    rewrite app_nil_r_s, no_nl_no_char. apply strip_no_char.
    by rewrite <- no_nl_no_char.
  - change (no_nl (strip (b +:+ String nl "") +:+ join (strip <$> ls)) = true).
    rewrite no_nl_app, IH, strip_app_nl, andb_true_r, no_nl_no_char.
    apply strip_no_char. by rewrite <- no_nl_no_char.
Qed.

(** ** The citation commands of a file of the project *)

Lemma tex_files_elem (project : project_walk) (root : string)
    (files : list (string * string)) (filename content : string) :
  (root, files) ∈ project → (filename, content) ∈ files →
  is_tex_file filename = true →
  (path_join root filename, content) ∈ tex_files project.
Proof.
  intros Hp Hf Ht. unfold tex_files.
  apply list_elem_of_bind. exists (root, files). split; [|done].
  apply list_elem_of_bind. exists (filename, content). split.
  - apply list_elem_of_here.
  - by apply list_elem_of_filter.
Qed.

Lemma all_matches_elem (project : project_walk) (root : string)
    (files : list (string * string)) (filename content : string)
    (x : string * string) :
  (root, files) ∈ project → (filename, content) ∈ files →
  is_tex_file filename = true →
  x ∈ findall_citere (join (strip <$> readlines content)) →
  x ∈ all_matches project.
Proof.
  intros Hp Hf Ht Hx. unfold all_matches.
  apply list_elem_of_bind. exists (path_join root filename, content).
  split; [done|]. by eapply tex_files_elem.
Qed.

(** The commands the scanner finds in a file whose lines, trimmed and
    joined, are [pre], a citation command and [post], when no citation
    command is left open in [pre]. *)
Lemma findall_citere_at (content pre cmd arg post : string) :
  cmd ∈ cites →
  join (strip <$> readlines content) =
    pre +:+ "\" +:+ cmd +:+ "{" +:+ arg +:+ "}" +:+ post →
  in_open_citation pre = false →
  no_char "}" arg = true →
  findall_citere (dewrap content) =
  findall_citere pre ++ ("\" +:+ cmd, arg) :: findall_citere post.
Proof.
  intros Hcmd Htext Hopen Harg.
  assert (no_nl arg = true) as Hnl.
  { pose proof (strip_lines_no_nl _ (readlines_file_lines content)) as H.
    rewrite Htext, !no_nl_app in H.
    by repeat (apply andb_true_iff in H as [? H]). }
  unfold dewrap. rewrite Htext.
  change ("\" +:+ cmd +:+ "{" +:+ arg +:+ "}" +:+ post)
    with (String "\" (cmd +:+ "{" +:+ arg +:+ "}" +:+ post)).
  rewrite findall_citere_app by done. f_equal.
  by apply findall_citere_command.
Qed.

(** C5, as the program has it.  Take a file of the project that the
    scanner reads, and a citation command with empty braces in the text of
    the file with its lines trimmed and joined, no citation command before
    it being left open.  Then [latex_cites] issues the warning; scanning
    the file, it reaches the command with the keys and warnings of the
    commands before it, adds one warning and no key there, and goes on with
    the commands after it; the keys of the commands before and after it are
    in the set returned; and the empty string is in that set only when some
    command of the project with a non-empty argument list has an empty
    piece. *)
Theorem latex_cites_empty_citation (project : project_walk) (root : string)
    (files : list (string * string)) (filename content pre cmd post : string) :
  (root, files) ∈ project →
  (filename, content) ∈ files →
  is_tex_file filename = true →
  cmd ∈ cites →
  join (strip <$> readlines content) = pre +:+ "\" +:+ cmd +:+ "{}" +:+ post →
  in_open_citation pre = false →
  empty_citation_warning ∈ (latex_cites project).2 ∧
  (∀ st, scan_file st content =
         foldl scan_match
           ((foldl scan_match st (findall_citere pre)).1,
            (foldl scan_match st (findall_citere pre)).2 ++
            [empty_citation_warning])
           (findall_citere post)) ∧
  (∀ x key, x ∈ findall_citere pre ++ findall_citere post → x.2 ≠ "" →
            key ∈ strip <$> split ","%char x.2 →
            key ∈ (latex_cites project).1) ∧
  ("" ∈ (latex_cites project).1 ↔
   ∃ x piece, x ∈ all_matches project ∧ x.2 ≠ "" ∧
              piece ∈ split ","%char x.2 ∧ strip piece = "").
Proof.
  intros Hp Hf Ht Hcmd Htext Hopen.
  pose proof (findall_citere_at content pre cmd "" post Hcmd Htext Hopen
                eq_refl) as Hall.
  assert (∀ x, x ∈ findall_citere (dewrap content) → x ∈ all_matches project)
    as Hin by (intros x; by eapply all_matches_elem).
  rewrite Hall in Hin.
  split; [|split; [|split]].
  - rewrite latex_cites_spec. simpl.
    assert (("\" +:+ cmd, "") ∈
            filter (λ x : string * string, x.2 = "") (all_matches project))
      as Hw.
    { apply list_elem_of_filter. split; [done|]. apply Hin.
      apply elem_of_app. right. apply list_elem_of_here. }
    destruct (filter _ (all_matches project)); [by inversion Hw|].
    simpl. apply list_elem_of_here.
  - intros st. unfold scan_file. rewrite Hall, foldl_app. done.
  - intros x key Hx Hne Hkey. apply latex_cites_key. exists x.
    split; [|done]. apply Hin.
    apply elem_of_app in Hx as [Hx|Hx]; apply elem_of_app; [by left|].
    right. by apply list_elem_of_further.
  - rewrite latex_cites_key. split.
    + intros (x & Hx & Hne & Hkey).
      apply list_elem_of_fmap in Hkey as (piece & Hs & Hpiece).
      by exists x, piece.
    + intros (x & piece & Hx & Hne & Hpiece & Hs). exists x.
      split; [done|]. split; [done|]. apply list_elem_of_fmap.
      by exists piece.
Qed.

Lemma latex_cites_empty_citation_witness :
  empty_citation_warning ∈
    (latex_cites
       [("paper", [("main.tex", ln "See \emph{x} \cite{" +:+
                               ln "  } and \cite{b}.")])]).2 ∧
  "b" ∈
    (latex_cites
       [("paper", [("main.tex", ln "See \emph{x} \cite{" +:+
                               ln "  } and \cite{b}.")])]).1.
Proof.
  destruct (latex_cites_empty_citation
              [("paper", [("main.tex", ln "See \emph{x} \cite{" +:+
                                      ln "  } and \cite{b}.")])]
              "paper"
              [("main.tex", ln "See \emph{x} \cite{" +:+
                            ln "  } and \cite{b}.")]
              "main.tex"
              (ln "See \emph{x} \cite{" +:+ ln "  } and \cite{b}.")
              "See \emph{x} " "cite" " and \cite{b}.")
    as (Hwarn & _ & Hkeys & _).
  - apply list_elem_of_here.
  - apply list_elem_of_here.
  - vm_compute. reflexivity.
  - apply list_elem_of_here.
  - vm_compute. reflexivity.
  - vm_compute. reflexivity.
  - split; [exact Hwarn|].
    apply (Hkeys ("\cite", "b") "b").
    + vm_compute. apply list_elem_of_here.
    + discriminate.
    + vm_compute. apply list_elem_of_here.
Defined.

(** C5, as the claim words it, fails: a citation command with empty braces
    inside the argument list of another one is not found as a command, and
    no warning is issued for it. *)
Lemma latex_cites_empty_citation_unnoticed :
  "\cite{a \cite{}}" = "\cite{a " +:+ "\cite{}" +:+ "}" ∧
  latex_cites [("paper", [("main.tex", "\cite{a \cite{}}")])] =
    ({["a \cite{"]}, []).
Proof. split; vm_compute; reflexivity. Qed.

(** C9, as the program has it.  Take a file of the project that the
    scanner reads, and a citation command in the text of the file with its
    lines trimmed and joined, no citation command before it being left
    open.  When its argument list, the text up to the first closing brace,
    has a trailing, a leading or a doubled comma, the empty string is in
    the set [latex_cites] returns. *)
Theorem latex_cites_empty_key (project : project_walk) (root : string)
    (files : list (string * string))
    (filename content pre cmd arg post a b : string) :
  (root, files) ∈ project →
  (filename, content) ∈ files →
  is_tex_file filename = true →
  cmd ∈ cites →
  join (strip <$> readlines content) =
    pre +:+ "\" +:+ cmd +:+ "{" +:+ arg +:+ "}" +:+ post →
  in_open_citation pre = false →
  no_char "}" arg = true →
  arg = a +:+ "," ∨ arg = "," +:+ a ∨ arg = a +:+ ",," +:+ b →
  "" ∈ (latex_cites project).1.
Proof.
  intros Hp Hf Ht Hcmd Htext Hopen Hbrace Harg.
  pose proof (findall_citere_at content pre cmd arg post Hcmd Htext Hopen
                Hbrace) as Hall.
  apply latex_cites_key. exists ("\" +:+ cmd, arg). split.
  { eapply all_matches_elem; [done..|].
    fold (dewrap content). rewrite Hall.
    apply elem_of_app. right. apply list_elem_of_here. }
  simpl.
  assert (arg ≠ "" ∧ "" ∈ split "," arg) as [Hne Hin].
  { destruct Harg as [-> | [-> | ->]].
    - split; [by destruct a|]. rewrite split_app_sep. set_solver.
    - split; [done|]. rewrite app_cons_s, app_nil_l_s. simpl. set_solver.
    - split; [by destruct a|]. rewrite app_cons_s, split_app_sep.
      rewrite app_cons_s, app_nil_l_s. simpl. set_solver. }
  split; [done|]. apply list_elem_of_fmap. by exists "".
Qed.

Lemma latex_cites_empty_key_witness :
  "" ∈ (latex_cites
          [("paper", [("main.tex", ln "See \cite{a," +:+ ln "  }.")])]).1.
Proof.
  apply (latex_cites_empty_key
           [("paper", [("main.tex", ln "See \cite{a," +:+ ln "  }.")])]
           "paper" [("main.tex", ln "See \cite{a," +:+ ln "  }.")]
           "main.tex" (ln "See \cite{a," +:+ ln "  }.")
           "See " "cite" "a," "." "a" "").
  - apply list_elem_of_here.
  - apply list_elem_of_here.
  - vm_compute. reflexivity.
  - apply list_elem_of_here.
  - vm_compute. reflexivity.
  - vm_compute. reflexivity.
  - vm_compute. reflexivity.
  - left. reflexivity.
Defined.

(** C9, as the claim words it, fails: a citation command with a leading
    comma inside the argument list of another one is not found as a
    command, and the empty string is not among the keys. *)
Lemma latex_cites_empty_key_unnoticed :
  "\cite{b \cite{,a}}" = "\cite{b " +:+ "\cite{" +:+ ",a" +:+ "}" +:+ "}" ∧
  latex_cites [("paper", [("main.tex", "\cite{b \cite{,a}}")])] =
    ({["b \cite{"; "a"]}, []) ∧
  "" ∉ (latex_cites [("paper", [("main.tex", "\cite{b \cite{,a}}")])]).1.
Proof.
  assert (latex_cites [("paper", [("main.tex", "\cite{b \cite{,a}}")])] =
          ({["b \cite{"; "a"]}, [])) as H by (vm_compute; reflexivity).
  split; [vm_compute; reflexivity|]. split; [exact H|].
  rewrite H. simpl. set_solver.
Qed.

(** ** A second run of [make] *)




Section MakeAgain.
Variable bibtexparser_load : string → result (option BibDatabase).

End MakeAgain.


